(** * Ingestion and retrieval pipeline of the Hero-Vida insight engine

    A shallow embedding of the two edge functions
    [supabase/functions/process-file/index.ts] (ingestion) and
    [supabase/functions/query-rag/index.ts] (retrieval), and of the
    word chunker [chunkText] they rely on. *)

From Stdlib Require Import String Ascii.
From Stdlib Require Import List NArith ZArith QArith Bool Arith Lia.
Import ListNotations.

Local Open Scope nat_scope.

(** ** JavaScript strings

    A JavaScript string is a sequence of UTF-16 code units. *)

Definition code_unit := N.
Definition jsstring := list code_unit.

(** Code units of an ASCII literal of the source. *)
Definition lit (s : string) : jsstring :=
  map N_of_ascii (list_ascii_of_string s).

Definition code_unit_eqb (a b : code_unit) : bool := N.eqb a b.

Fixpoint jsstring_eqb (a b : jsstring) : bool :=
  match a, b with
  | [], [] => true
  | x :: a', y :: b' => code_unit_eqb x y && jsstring_eqb a' b'
  | _, _ => false
  end.

(** The character class [\s] of a regular expression without the unicode
    flag: WhiteSpace and LineTerminator code points. *)
Definition is_space (c : code_unit) : bool :=
  ((9 <=? c) && (c <=? 13) ||
   (c =? 32) || (c =? 160) || (c =? 5760) ||
   ((8192 <=? c) && (c <=? 8202)) ||
   (c =? 8232) || (c =? 8233) || (c =? 8239) || (c =? 8287) ||
   (c =? 12288) || (c =? 65279))%N.

Definition starts_with_space (s : jsstring) : bool :=
  match s with
  | c :: _ => is_space c
  | [] => false
  end.

(** [text.split(/\s+/)]: the pieces of [s] between maximal runs of white
    space.  A run at the very start or end of [s] leaves an empty piece
    there, and the empty string splits into one empty piece. *)
Fixpoint split_ws (s : jsstring) : list jsstring :=
  match s with
  | [] => [[]]
  | c :: s' =>
      if is_space c then
        if starts_with_space s' then split_ws s' else [] :: split_ws s'
      else
        match split_ws s' with
        | w :: ws => (c :: w) :: ws
        | [] => [[c]]
        end
  end.

(** [Array.prototype.join(sep)]. *)
Fixpoint join (sep : jsstring) (parts : list jsstring) : jsstring :=
  match parts with
  | [] => []
  | [w] => w
  | w :: rest => w ++ sep ++ join sep rest
  end.

Definition space : jsstring := [32%N].

(** ** The chunker *)

(** The [for (const word of words)] loop of [chunkText], with its two
    mutable arrays [chunks] and [currentChunk] as loop state. *)
Fixpoint chunk_loop (maxTokens : Z) (words : list jsstring)
    (chunks : list jsstring) (currentChunk : list jsstring)
  : list jsstring * list jsstring :=
  match words with
  | [] => (chunks, currentChunk)
  | word :: rest =>
      let currentChunk := currentChunk ++ [word] in
      if (maxTokens <=? Z.of_nat (length currentChunk))%Z then
        chunk_loop maxTokens rest (chunks ++ [join space currentChunk]) []
      else
        chunk_loop maxTokens rest chunks currentChunk
  end.

Definition chunkText (text : jsstring) (maxTokens : Z) : list jsstring :=
  let words := split_ws text in
  let '(chunks, currentChunk) := chunk_loop maxTokens words [] [] in
  if 0 <? length currentChunk then chunks ++ [join space currentChunk]
  else chunks.


(** ** The document store

    The two tables the functions read and write.  Rows are kept in the
    order the store scans them; an insert adds its rows at the end. *)

(** An embedding vector: the JSON array of numbers the embedding service
    returns.  The functions pass it on without looking inside. *)
Definition Vector := list Q.

Record DocumentRow := {
  doc_id : nat;
  doc_name : jsstring;
  doc_type : jsstring;
  doc_content : jsstring;
  doc_originalUrl : jsstring;
  doc_created_at : nat
}.

Record EmbeddingRow := {
  document_id : nat;
  content : jsstring;
  embedding : Vector;
  chunk_index : nat
}.

Record Store := {
  documents : list DocumentRow;
  embeddings : list EmbeddingRow
}.

(** ** The outside world

    Every answer of a collaborator (blob storage, database, embedding and
    generation service, process environment) is an input of the run. *)

Record Blob := { blob_text : jsstring }.

Inductive DownloadResult :=
| DownloadError (message : jsstring)
| DownloadData (fileData : Blob).

Inductive DocInsertResult :=
| DocInsertError (message : jsstring)
| DocInserted (id : nat) (created_at : nat).

(** Outcome of one [embedContent] call: the call or the decoding of its
    body throws, the response is not [ok], or the body is read and
    [embedding?.values] is taken from it ([None] when absent or falsy). *)
Inductive EmbedOutcome :=
| EmbedThrows (message : jsstring)
| EmbedNotOk
| EmbedValues (values : option Vector).

Inductive RpcResult :=
| RpcError (message : jsstring)
| RpcData (similarChunks : option (list jsstring)).

(** Outcome of the [generateContent] call; [GenText t] carries
    [candidates?.[0]?.content?.parts?.[0]?.text]. *)
Inductive GenOutcome :=
| GenThrows (message : jsstring)
| GenNotOk
| GenText (text : option jsstring).

Record Env := {
  GEMINI_API_KEY : option jsstring;
  env_download : jsstring -> DownloadResult;
  env_insert_document : DocInsertResult;
  (* the [i]-th embedding call of the run, on the given text *)
  env_embed : nat -> jsstring -> EmbedOutcome;
  env_insert_embeddings : option jsstring;
  env_match_documents : Vector -> RpcResult;
  env_select_documents_fails : bool;
  env_generate : jsstring -> GenOutcome
}.

(** Calls made to the collaborators, in the order they are made. *)
Inductive Event :=
| EvDownload (fileUrl : jsstring)
| EvInsertDocument (name type content originalUrl : jsstring)
| EvEmbed (text : jsstring)
| EvInsertEmbeddings (batch : list EmbeddingRow)
| EvMatchDocuments (query_embedding : Vector) (match_threshold : Q)
    (match_count : nat)
| EvSelectDocuments (limit : nat)
| EvGenerate (prompt : jsstring).

Record World := {
  store : Store;
  trace : list Event
}.

(** ** Computations that may throw

    A computation transforms the world and either throws an [Error] with a
    message or returns a value. *)

Definition M (A : Type) : Type := World -> World * (jsstring + A).

Definition ret {A} (a : A) : M A := fun w => (w, inr a).

Definition bind {A B} (c : M A) (k : A -> M B) : M B :=
  fun w =>
    match c w with
    | (w', inl message) => (w', inl message)
    | (w', inr a) => k a w'
    end.

Definition throw {A} (message : jsstring) : M A := fun w => (w, inl message).

Notation "x <- c ;; k" := (bind c (fun x => k))
  (at level 61, c at next level, right associativity).
Notation "c ;;; k" := (bind c (fun _ => k))
  (at level 61, right associativity).

Definition emit (e : Event) : M unit :=
  fun w => ({| store := store w; trace := trace w ++ [e] |}, inr tt).

Definition get_store : M Store := fun w => (w, inr (store w)).

Definition put_store (s : Store) : M unit :=
  fun w => ({| store := s; trace := trace w |}, inr tt).

(** ** Calls to the collaborators *)

(** [supabase.storage.from('documents').download(fileUrl)] *)
Definition storage_download (env : Env) (fileUrl : jsstring)
  : M DownloadResult :=
  emit (EvDownload fileUrl) ;;;
  ret (env_download env fileUrl).

(** [supabase.from('documents').insert({...}).select().single()] *)
Definition insert_document (env : Env) (name type text fileUrl : jsstring)
  : M (jsstring + DocumentRow) :=
  emit (EvInsertDocument name type text fileUrl) ;;;
  match env_insert_document env with
  | DocInsertError message => ret (inl message)
  | DocInserted id created_at =>
      let row := {| doc_id := id; doc_name := name; doc_type := type;
                    doc_content := text; doc_originalUrl := fileUrl;
                    doc_created_at := created_at |} in
      s <- get_store ;;
      put_store {| documents := documents s ++ [row];
                   embeddings := embeddings s |} ;;;
      ret (inr row)
  end.

(** [fetch] of [text-embedding-004:embedContent] for one text. *)
Definition fetch_embedding (env : Env) (i : nat) (text : jsstring)
  : M EmbedOutcome :=
  emit (EvEmbed text) ;;;
  ret (env_embed env i text).

(** [supabase.from('embeddings').insert(embeddings)]: one statement, all
    rows or none. *)
Definition insert_embeddings (env : Env) (batch : list EmbeddingRow)
  : M (option jsstring) :=
  emit (EvInsertEmbeddings batch) ;;;
  match env_insert_embeddings env with
  | Some message => ret (Some message)
  | None =>
      s <- get_store ;;
      put_store {| documents := documents s;
                   embeddings := embeddings s ++ batch |} ;;;
      ret None
  end.

(** [supabase.rpc('match_documents', {...})] *)
Definition rpc_match_documents (env : Env) (query_embedding : Vector)
    (match_threshold : Q) (match_count : nat) : M RpcResult :=
  emit (EvMatchDocuments query_embedding match_threshold match_count) ;;;
  ret (env_match_documents env query_embedding).

(** [supabase.from('documents').select('content').limit(n)]: no order is
    asked for, the store answers in its own row order. *)
Definition select_documents_content (env : Env) (limit : nat)
  : M (option (list jsstring)) :=
  emit (EvSelectDocuments limit) ;;;
  if env_select_documents_fails env then ret None
  else
    s <- get_store ;;
    ret (Some (map doc_content (firstn limit (documents s)))).

(** [fetch] of [gemini-1.5-flash:generateContent]. *)
Definition fetch_generate (env : Env) (prompt : jsstring) : M GenOutcome :=
  emit (EvGenerate prompt) ;;;
  ret (env_generate env prompt).

(** ** Responses *)

Inductive Body :=
| Processed (documentId : nat) (chunksProcessed : nat)
| Answer (answer : jsstring)
| ErrorBody (error : jsstring).

Record Response := {
  status : nat;
  body : Body
}.

(** The [try { ... } catch (error) { ... }] around a handler body: a thrown
    error becomes a status-500 response carrying its message. *)
Definition try_catch (c : M Response) : World -> World * Response :=
  fun w =>
    match c w with
    | (w', inr response) => (w', response)
    | (w', inl message) => (w', {| status := 500; body := ErrorBody message |})
    end.

(** [!apiKey] is false exactly for a non-empty string. *)
Definition configured (apiKey : option jsstring) : bool :=
  match apiKey with
  | Some (_ :: _) => true
  | _ => false
  end.

(** ** Ingestion: [process-file]

    One run of the handler on a parsed request body; the answer to a CORS
    preflight request comes before the run and is left out. *)

Record FileRequest := {
  fileName : jsstring;
  fileUrl : jsstring;
  fileType : jsstring
}.

(** The text extraction step. *)
Definition extract_text (fileType : jsstring) (fileData : Blob) : jsstring :=
  if jsstring_eqb fileType (lit "text/csv")
     || jsstring_eqb fileType (lit "application/vnd.ms-excel")
  then blob_text fileData
  else if jsstring_eqb fileType (lit "application/pdf")
  then blob_text fileData
  else [].

(** The [for (const chunk of chunks)] loop; [i] counts the calls made so
    far and [embeddings] is the array being filled. *)
Fixpoint embed_chunks (env : Env) (document : DocumentRow) (i : nat)
    (chunks : list jsstring) (embeddings : list EmbeddingRow)
  : M (list EmbeddingRow) :=
  match chunks with
  | [] => ret embeddings
  | chunk :: rest =>
      r <- fetch_embedding env i chunk ;;
      match r with
      | EmbedValues (Some vector) =>
          embed_chunks env document (S i) rest
            (embeddings ++
             [{| document_id := doc_id document;
                 content := chunk;
                 embedding := vector;
                 chunk_index := length embeddings |}])
      | _ => embed_chunks env document (S i) rest embeddings
      end
  end.

Definition process_file_body (env : Env) (req : FileRequest) : M Response :=
  dl <- storage_download env (fileUrl req) ;;
  match dl with
  | DownloadError message =>
      throw (lit "Failed to download file: " ++ message)
  | DownloadData fileData =>
      let text := extract_text (fileType req) fileData in
      ins <- insert_document env (fileName req) (fileType req) text
               (fileUrl req) ;;
      match ins with
      | inl message => throw (lit "Failed to store document: " ++ message)
      | inr document =>
          let chunks := chunkText text 500 in
          if negb (configured (GEMINI_API_KEY env)) then
            throw (lit "Gemini API key not configured")
          else
            embeddings <- embed_chunks env document 0 chunks [] ;;
            (if 0 <? length embeddings then
               err <- insert_embeddings env embeddings ;;
               match err with
               | Some message =>
                   throw (lit "Failed to store embeddings: " ++ message)
               | None => ret tt
               end
             else ret tt) ;;;
            ret {| status := 200;
                   body := Processed (doc_id document) (length embeddings) |}
      end
  end.

Definition process_file (env : Env) (req : FileRequest)
  : World -> World * Response :=
  try_catch (process_file_body env req).

(** ** Retrieval: [query-rag]

    One run of the handler on the question of a parsed request body. *)

Definition nl : jsstring := [10%N].

Definition build_prompt (relevantContext question : jsstring) : jsstring :=
  lit "Based on the following context about Hero-Vida data, please answer the user's question. If the information is not available in the context, please say so clearly."
  ++ nl ++ nl ++ lit "Context:" ++ nl ++ relevantContext
  ++ nl ++ nl ++ lit "Question: " ++ question
  ++ nl ++ nl ++ lit "Please provide a detailed and accurate answer based only on the information provided in the context.".

(** [xs && xs.length > 0 ? xs.join('\n\n') : ''] *)
Definition context_of (xs : option (list jsstring)) : jsstring :=
  match xs with
  | Some (x :: rest) => join (nl ++ nl) (x :: rest)
  | _ => []
  end.

Definition query_rag_body (env : Env) (question : jsstring) : M Response :=
  if negb (configured (GEMINI_API_KEY env)) then
    throw (lit "Gemini API key not configured")
  else
    r <- fetch_embedding env 0 question ;;
    match r with
    | EmbedThrows message => throw message
    | EmbedNotOk => throw (lit "Failed to generate question embedding")
    | EmbedValues None => throw (lit "No embedding generated for question")
    | EmbedValues (Some questionVector) =>
        s <- rpc_match_documents env questionVector (7 # 10) 5 ;;
        relevantContext <-
          match s with
          | RpcError _ =>
              docs <- select_documents_content env 3 ;;
              ret (context_of docs)
          | RpcData similarChunks => ret (context_of similarChunks)
          end ;;
        g <- fetch_generate env (build_prompt relevantContext question) ;;
        match g with
        | GenThrows message => throw message
        | GenNotOk => throw (lit "Failed to generate response from Gemini")
        | GenText text =>
            let answer :=
              match text with
              | Some (c :: t) => c :: t
              | _ => lit "Sorry, I could not generate a response."
              end in
            ret {| status := 200; body := Answer answer |}
        end
    end.

Definition query_rag (env : Env) (question : jsstring)
  : World -> World * Response :=
  try_catch (query_rag_body env question).

(** ** Notions used in the statements *)

(** The [i]-th group of [m] consecutive words. *)
Definition slice (m i : nat) (ws : list jsstring) : list jsstring :=
  firstn m (skipn (i * m) ws).

(** Number of groups of at most [m] words that cover [n] words. *)
Definition ceil_div (n m : nat) : nat := (n + m - 1) / m.

Definition space_free (w : jsstring) : Prop :=
  Forall (fun c => is_space c = false) w.

(** Every element but the last one is a non-empty string. *)
Fixpoint inner_nonempty (ws : list jsstring) : Prop :=
  match ws with
  | [] => True
  | w :: rest =>
      match rest with
      | [] => True
      | _ :: _ => w <> [] /\ inner_nonempty rest
      end
  end.

(** Word lists that [join] followed by [split_ws] gives back: no word holds
    white space, and only the first and the last word may be empty. *)
Definition separable (ws : list jsstring) : Prop :=
  Forall space_free ws /\ inner_nonempty (tl ws).

(** The words proper of a text: the non-empty pieces [split] returns. *)
Definition is_word (w : jsstring) : bool :=
  match w with
  | [] => false
  | _ :: _ => true
  end.

Definition word_count (text : jsstring) : nat :=
  length (filter is_word (split_ws text)).

(** The vector an embedding call yields, if it yields one. *)
Definition embedded (env : Env) (i : nat) (chunk : jsstring)
  : option Vector :=
  match env_embed env i chunk with
  | EmbedValues (Some vector) => Some vector
  | _ => None
  end.

Definition embed_ok (env : Env) (i : nat) (chunk : jsstring) : bool :=
  match embedded env i chunk with
  | Some _ => true
  | None => false
  end.

(** The records the embedding loop appends when it starts at call [i] with
    [k] records already in the array. *)
Fixpoint embed_rows (env : Env) (id : nat) (i : nat)
    (chunks : list jsstring) (k : nat) : list EmbeddingRow :=
  match chunks with
  | [] => []
  | chunk :: rest =>
      match embedded env i chunk with
      | Some vector =>
          {| document_id := id; content := chunk; embedding := vector;
             chunk_index := k |} :: embed_rows env id (S i) rest (S k)
      | None => embed_rows env id (S i) rest k
      end
  end.

(** Positions, counted from [i], of the chunks whose embedding call yields
    a vector. *)
Fixpoint embedded_positions (env : Env) (i : nat) (chunks : list jsstring)
  : list nat :=
  match chunks with
  | [] => []
  | chunk :: rest =>
      if embed_ok env i chunk then i :: embedded_positions env (S i) rest
      else embedded_positions env (S i) rest
  end.

Definition error_response (message : jsstring) : Response :=
  {| status := 500; body := ErrorBody message |}.

Definition log (w : World) (events : list Event) : World :=
  {| store := store w; trace := trace w ++ events |}.

(** The row a run inserts in [documents]. *)
Definition document_of (req : FileRequest) (fileData : Blob)
    (id created_at : nat) : DocumentRow :=
  {| doc_id := id; doc_name := fileName req; doc_type := fileType req;
     doc_content := extract_text (fileType req) fileData;
     doc_originalUrl := fileUrl req; doc_created_at := created_at |}.

Definition add_document (w : World) (row : DocumentRow) : World :=
  {| store := {| documents := documents (store w) ++ [row];
                 embeddings := embeddings (store w) |};
     trace := trace w |}.

Definition add_embeddings (w : World) (rows : list EmbeddingRow) : World :=
  {| store := {| documents := documents (store w);
                 embeddings := embeddings (store w) ++ rows |};
     trace := trace w |}.

(** ** The uploader: [FileUploader]

    The component that validates the chosen files, uploads the valid ones
    to storage and calls [process-file] for each of them. *)

(** What the browser tells about a chosen file. *)
Record File := {
  file_name : jsstring;
  file_size : N;
  file_type : jsstring
}.

Definition allowedTypes : list jsstring :=
  [lit "application/pdf";
   lit "text/csv";
   lit "application/vnd.ms-excel";
   lit "application/vnd.openxmlformats-officedocument.spreadsheetml.sheet"].

(** [xs.includes(x)] on strings. *)
Definition includes (xs : list jsstring) (x : jsstring) : bool :=
  existsb (fun y => jsstring_eqb y x) xs.

(** [None] stands for [null]: the file is accepted. *)
Definition validateFile (file : File) : option jsstring :=
  if negb (includes allowedTypes (file_type file)) then
    Some (lit "Only PDF and CSV files are allowed")
  else if (50 * 1024 * 1024 <? file_size file)%N then
    Some (lit "File size must be less than 50MB")
  else None.

Inductive Status := uploading | processing | completed | error.

Record UploadedFile := {
  uf_id : jsstring;
  uf_name : jsstring;
  uf_size : N;
  uf_type : jsstring;
  uf_status : Status;
  uf_progress : nat;
  uf_error : option jsstring
}.

(** Outcome of [supabase.storage.from('documents').upload(...)] and of
    [supabase.functions.invoke('process-file', ...)]: the call throws,
    resolves with an error, or resolves without one. *)
Inductive CallOutcome := Throws | ResolvesError | ResolvesOk.

(** What the component cannot decide by itself: the identifier drawn for
    the [i]-th chosen file, the clock read for the [k]-th valid file, the
    outcomes of the two calls, and the [onFilesUploaded] callback ([None]
    when the property is absent, [Some false] when it throws). *)
Record Browser := {
  new_id : nat -> jsstring;
  now : nat -> jsstring;
  upload : jsstring -> File -> CallOutcome;
  invoke_process_file : FileRequest -> CallOutcome;
  onFilesUploaded : option bool
}.

Inductive Toast :=
| ToastUploadError
| ToastFilesProcessed (count : nat).

Inductive UploaderCall :=
| CallUpload (path : jsstring) (file : File)
| CallProcessFile (request : FileRequest)
| CallOnFilesUploaded (validFiles : list File).

(** The state of the component: the [files] state variable, the toasts
    shown and the calls made so far. *)
Record Uploader := {
  files : list UploadedFile;
  toasts : list Toast;
  calls : list UploaderCall
}.

Definition is_valid (file : File) : bool :=
  match validateFile file with
  | None => true
  | Some _ => false
  end.

(** The entry made for the [i]-th chosen file. *)
Definition entry_of (b : Browser) (i : nat) (file : File) : UploadedFile :=
  let verdict := validateFile file in
  {| uf_id := new_id b i;
     uf_name := file_name file;
     uf_size := file_size file;
     uf_type := file_type file;
     uf_status := match verdict with
                  | Some _ => error
                  | None => uploading
                  end;
     uf_progress := 0;
     uf_error := verdict |}.

(** The [forEach] of [processFiles]: the entries pushed on [newFiles],
    counting the chosen files from [i]. *)
Fixpoint new_entries (b : Browser) (i : nat) (fileList : list File)
  : list UploadedFile :=
  match fileList with
  | [] => []
  | file :: rest => entry_of b i file :: new_entries b (S i) rest
  end.

(** [setFiles(prev => prev.map(f => f.id === id ? change(f) : f))] *)
Definition set_file (id : jsstring) (change : UploadedFile -> UploadedFile)
    (u : Uploader) : Uploader :=
  {| files := map (fun f => if jsstring_eqb (uf_id f) id then change f
                            else f) (files u);
     toasts := toasts u;
     calls := calls u |}.

Definition mark_error (message : jsstring) (f : UploadedFile)
  : UploadedFile :=
  {| uf_id := uf_id f; uf_name := uf_name f; uf_size := uf_size f;
     uf_type := uf_type f; uf_status := error;
     uf_progress := uf_progress f; uf_error := Some message |}.

Definition mark_progress (s : Status) (progress : nat) (f : UploadedFile)
  : UploadedFile :=
  {| uf_id := uf_id f; uf_name := uf_name f; uf_size := uf_size f;
     uf_type := uf_type f; uf_status := s;
     uf_progress := progress; uf_error := uf_error f |}.

Definition made (c : UploaderCall) (u : Uploader) : Uploader :=
  {| files := files u; toasts := toasts u; calls := calls u ++ [c] |}.

Definition shown (t : Toast) (u : Uploader) : Uploader :=
  {| files := files u; toasts := toasts u ++ [t]; calls := calls u |}.

(** One turn of the [for (const file of validFiles)] loop, for the [k]-th
    valid file. *)
Definition upload_one (b : Browser) (newFiles : list UploadedFile)
    (k : nat) (file : File) (u : Uploader) : Uploader :=
  match find (fun f => jsstring_eqb (uf_name f) (file_name file)) newFiles
  with
  | None => u
  | Some correspondingFileData =>
      let id := uf_id correspondingFileData in
      let path := now b k ++ lit "-" ++ file_name file in
      let u := made (CallUpload path file) u in
      match upload b path file with
      | Throws => set_file id (mark_error (lit "Processing error")) u
      | ResolvesError => set_file id (mark_error (lit "Upload failed")) u
      | ResolvesOk =>
          let u := set_file id (mark_progress processing 50) u in
          let request := {| fileName := file_name file;
                            fileUrl := path;
                            fileType := file_type file |} in
          let u := made (CallProcessFile request) u in
          match invoke_process_file b request with
          | Throws => set_file id (mark_error (lit "Processing error")) u
          | ResolvesError =>
              set_file id (mark_error (lit "Processing failed")) u
          | ResolvesOk => set_file id (mark_progress completed 100) u
          end
      end
  end.

Fixpoint upload_all (b : Browser) (newFiles : list UploadedFile) (k : nat)
    (validFiles : list File) (u : Uploader) : Uploader :=
  match validFiles with
  | [] => u
  | file :: rest =>
      upload_all b newFiles (S k) rest (upload_one b newFiles k file u)
  end.

Definition processFiles (b : Browser) (fileList : list File) (u : Uploader)
  : Uploader :=
  let validFiles := filter is_valid fileList in
  let newFiles := new_entries b 0 fileList in
  let u := {| files := files u ++ newFiles;
              toasts := toasts u; calls := calls u |} in
  if length validFiles =? 0 then shown ToastUploadError u
  else
    let u := upload_all b newFiles 0 validFiles u in
    match onFilesUploaded b with
    | None => u
    | Some resolves =>
        let u := made (CallOnFilesUploaded validFiles) u in
        if resolves then shown (ToastFilesProcessed (length validFiles)) u
        else u
    end.

(** Where the entry of the [k]-th valid file ends up: its status, its
    progress and its error message, read off the outcomes of the two
    calls. *)
Definition outcome (b : Browser) (k : nat) (file : File)
  : Status * nat * option jsstring :=
  let path := now b k ++ lit "-" ++ file_name file in
  match upload b path file with
  | Throws => (error, 0, Some (lit "Processing error"))
  | ResolvesError => (error, 0, Some (lit "Upload failed"))
  | ResolvesOk =>
      match invoke_process_file b
              {| fileName := file_name file; fileUrl := path;
                 fileType := file_type file |} with
      | Throws => (error, 50, Some (lit "Processing error"))
      | ResolvesError => (error, 50, Some (lit "Processing failed"))
      | ResolvesOk => (completed, 100, None)
      end
  end.

Definition settled_entry (b : Browser) (i k : nat) (file : File)
  : UploadedFile :=
  let '(s, progress, message) := outcome b k file in
  {| uf_id := new_id b i; uf_name := file_name file;
     uf_size := file_size file; uf_type := file_type file;
     uf_status := s; uf_progress := progress; uf_error := message |}.

(** The entries of the chosen files once [processFiles] is over; [i]
    counts the chosen files and [k] the valid ones among them. *)
Fixpoint settled_entries (b : Browser) (i k : nat) (fileList : list File)
  : list UploadedFile :=
  match fileList with
  | [] => []
  | file :: rest =>
      if is_valid file then
        settled_entry b i k file :: settled_entries b (S i) (S k) rest
      else
        entry_of b i file :: settled_entries b (S i) k rest
  end.

Fixpoint ends_with_space (s : jsstring) : bool :=
  match s with
  | [] => false
  | [c] => is_space c
  | _ :: s' => ends_with_space s'
  end.

(** ** Sample runs *)

Definition empty_world : World :=
  {| store := {| documents := []; embeddings := [] |}; trace := [] |}.

Definition sample_request : FileRequest :=
  {| fileName := lit "sales.csv";
     fileUrl := lit "1700000000000-sales.csv";
     fileType := lit "text/csv" |}.

(** A world in which every collaborator answers, the file holds [text],
    embedding call [i] succeeds when [embeds i] holds, the batch insert
    answers [batch_error] and the similarity search is unavailable. *)
Definition sample_env (text : jsstring) (embeds : nat -> bool)
    (batch_error : option jsstring) (generated : GenOutcome) : Env :=
  {| GEMINI_API_KEY := Some (lit "secret");
     env_download := fun _ => DownloadData {| blob_text := text |};
     env_insert_document := DocInserted 7 100;
     env_embed := fun i _ =>
       if embeds i then EmbedValues (Some [1 # 2; 1 # 4]) else EmbedNotOk;
     env_insert_embeddings := batch_error;
     env_match_documents := fun _ => RpcError (lit "function not found");
     env_select_documents_fails := false;
     env_generate := fun _ => generated |}.

(** A text of [n] words separated by single spaces. *)
Definition words_text (n : nat) : jsstring :=
  join space (repeat (lit "w") n).

Definition sample_document (id created_at : nat) (text : jsstring)
  : DocumentRow :=
  {| doc_id := id; doc_name := lit "doc"; doc_type := lit "text/csv";
     doc_content := text; doc_originalUrl := lit "doc";
     doc_created_at := created_at |}.

(** ** Facts about splitting and joining *)

Lemma split_ws_nonempty (s : jsstring) : split_ws s <> [].
Proof.
  destruct s as [|c s']; simpl; [discriminate|].
  destruct (is_space c).
  - destruct (starts_with_space s'); [|discriminate].
    revert c; induction s' as [|d s'' IH]; intros c; simpl; [discriminate|].
    destruct (is_space d).
    + destruct (starts_with_space s''); [apply (IH d)|discriminate].
    + destruct (split_ws s''); discriminate.
  - destruct (split_ws s'); discriminate.
Qed.

Lemma split_ws_length_pos (s : jsstring) : 0 < length (split_ws s).
Proof.
  pose proof (split_ws_nonempty s) as H.
  destruct (split_ws s); [congruence | simpl; lia].
Qed.



Lemma split_ws_space_free (s : jsstring) : Forall space_free (split_ws s).
Proof.
  induction s as [|c s' IH]; simpl.
  - repeat constructor.
  - destruct (is_space c) eqn:Ec.
    + destruct (starts_with_space s'); [assumption|].
      constructor; [constructor | assumption].
    + destruct (split_ws s') as [|w ws]; [repeat constructor; assumption|].
      inversion IH; subst. constructor; [constructor|]; assumption.
Qed.

Lemma split_ws_inner (s : jsstring) : inner_nonempty (tl (split_ws s)).
Proof.
  induction s as [|c s' IH]; simpl; [exact I|].
  destruct (is_space c) eqn:Ec.
  - destruct (starts_with_space s') eqn:Es; [assumption|].
    simpl. destruct s' as [|d s'']; simpl in *; [exact I|].
    rewrite Es in *.
    destruct (split_ws s'') as [|w ws]; simpl in *; [exact I|].
    destruct ws; [exact I|]. split; [discriminate | assumption].
  - destruct (split_ws s') as [|w ws]; simpl in *; [exact I | assumption].
Qed.

Lemma split_ws_separable (s : jsstring) : separable (split_ws s).
Proof. split; [apply split_ws_space_free | apply split_ws_inner]. Qed.

Lemma inner_nonempty_tl (ws : list jsstring) :
  inner_nonempty ws -> inner_nonempty (tl ws).
Proof.
  destruct ws as [|w [|w' rest]]; simpl; try tauto.
Qed.

Lemma inner_nonempty_app_l (a b : list jsstring) :
  inner_nonempty (a ++ b) -> inner_nonempty a.
Proof.
  induction a as [|w a' IH]; simpl; [tauto|].
  destruct a' as [|w' a'']; [tauto|].
  simpl in *. intros [Hw H]. split; [assumption | apply IH; assumption].
Qed.

Lemma inner_nonempty_app_r (a b : list jsstring) :
  inner_nonempty (a ++ b) -> inner_nonempty b.
Proof.
  induction a as [|w a' IH]; simpl; [tauto|].
  destruct (a' ++ b) eqn:E.
  - destruct a'; simpl in E; [subst; simpl; tauto | discriminate].
  - intros [_ H]. apply IH. assumption.
Qed.

Lemma separable_app_l (a b : list jsstring) :
  separable (a ++ b) -> separable a.
Proof.
  intros [Hf Hi]. split.
  - apply Forall_app in Hf. tauto.
  - destruct a as [|w a']; simpl in *; [exact I|].
    eapply inner_nonempty_app_l; eassumption.
Qed.

Lemma separable_app_r (a b : list jsstring) :
  separable (a ++ b) -> separable b.
Proof.
  intros [Hf Hi]. split.
  - apply Forall_app in Hf. tauto.
  - destruct a as [|w a']; simpl in *; [assumption|].
    apply inner_nonempty_tl. eapply inner_nonempty_app_r; eassumption.
Qed.

Lemma split_ws_word_app (w s : jsstring) :
  space_free w ->
  split_ws (w ++ s) = (w ++ hd [] (split_ws s)) :: tl (split_ws s).
Proof.
  induction 1 as [|c w' Hc Hw IH]; simpl.
  - pose proof (split_ws_nonempty s) as H. destruct (split_ws s); simpl.
    + contradiction H; reflexivity.
    + reflexivity.
  - rewrite Hc, IH. reflexivity.
Qed.

Lemma split_ws_word (w : jsstring) : space_free w -> split_ws w = [w].
Proof.
  intros H. rewrite <- (app_nil_r w) at 1.
  rewrite split_ws_word_app by assumption. simpl. rewrite app_nil_r. reflexivity.
Qed.

Lemma space_free_starts (w : jsstring) :
  space_free w -> starts_with_space w = false.
Proof. destruct 1; simpl; auto. Qed.

Lemma join_cons (sep w w2 : jsstring) (rest : list jsstring) :
  join sep (w :: w2 :: rest) = w ++ sep ++ join sep (w2 :: rest).
Proof. reflexivity. Qed.

(** Joining a separable list with single spaces and splitting the result
    gives the list back. *)
Lemma split_ws_join (ws : list jsstring) :
  ws <> [] -> separable ws -> split_ws (join space ws) = ws.
Proof.
  induction ws as [|w rest IH]; [congruence|].
  intros _ [Hf Hi]. inversion Hf as [|? ? Hw Hrest]; subst.
  destruct rest as [|w2 rest'].
  - apply split_ws_word; assumption.
  - rewrite join_cons, split_ws_word_app by assumption.
    assert (Hsep : separable (w2 :: rest')).
    { split; [assumption|]. apply inner_nonempty_tl. exact Hi. }
    assert (IH' := IH ltac:(discriminate) Hsep).
    assert (Hst : starts_with_space (join space (w2 :: rest')) = false).
    { inversion Hrest as [|? ? Hw2 _]; subst.
      destruct rest' as [|w3 rest''].
      - apply space_free_starts; assumption.
      - rewrite join_cons. simpl in Hi. destruct Hi as [Hne _].
        destruct w2 as [|c w2']; [congruence|].
        inversion Hw2; subst. simpl. assumption. }
    change (space ++ join space (w2 :: rest'))
      with (32%N :: join space (w2 :: rest')).
    cbn [split_ws]. change (is_space 32%N) with true. cbn iota.
    rewrite Hst, IH'. simpl. rewrite app_nil_r. reflexivity.
Qed.

(** [split] and [join] on a few strings. *)
Example split_ws_examples :
  map split_ws [lit ""; lit " "; lit "a"; lit " a"; lit "a "; lit "a  b c"] =
  [[lit ""]; [lit ""; lit ""]; [lit "a"]; [lit ""; lit "a"];
   [lit "a"; lit ""]; [lit "a"; lit "b"; lit "c"]].
Proof. reflexivity. Qed.

Example join_examples :
  map (join space) [[]; [lit "a"]; [lit "a"; lit "b"]; [lit ""; lit "a"]] =
  [lit ""; lit "a"; lit "a b"; lit " a"].
Proof. reflexivity. Qed.

Example chunkText_examples :
  chunkText (lit "a b c d e") 2 = [lit "a b"; lit "c d"; lit "e"] /\
  chunkText (lit "a b c d") 2 = [lit "a b"; lit "c d"] /\
  chunkText (lit "a b") 500 = [lit "a b"] /\
  chunkText (lit "a ") 1 = [lit "a"; lit ""].
Proof. repeat split; reflexivity. Qed.

(** ** Facts about the chunking loop *)


Section ChunkLoop.

Variable maxTokens : Z.
Hypothesis maxTokens_pos : (0 < maxTokens)%Z.

Local Abbreviation m := (Z.to_nat maxTokens).

Lemma maxTokens_nat_pos : 0 < m.
Proof. lia. Qed.

Lemma full_test (n : nat) :
  (maxTokens <=? Z.of_nat n)%Z = (m <=? n).
Proof.
  destruct (Z.leb_spec maxTokens (Z.of_nat n));
    destruct (Nat.leb_spec (Z.to_nat maxTokens) n); try reflexivity; lia.
Qed.

Lemma chunk_loop_app (ws1 ws2 chunks cur : list jsstring) :
  chunk_loop maxTokens (ws1 ++ ws2) chunks cur =
  chunk_loop maxTokens ws2
    (fst (chunk_loop maxTokens ws1 chunks cur))
    (snd (chunk_loop maxTokens ws1 chunks cur)).
Proof.
  revert chunks cur. induction ws1 as [|w ws1 IH]; intros; simpl.
  - reflexivity.
  - destruct (maxTokens <=? _)%Z; apply IH.
Qed.

Lemma chunk_loop_short (ws chunks cur : list jsstring) :
  length cur + length ws < m ->
  chunk_loop maxTokens ws chunks cur = (chunks, cur ++ ws).
Proof.
  revert cur. induction ws as [|w ws IH]; intros cur H; simpl.
  - rewrite app_nil_r. reflexivity.
  - rewrite full_test. simpl in H.
    destruct (Nat.leb_spec m (length (cur ++ [w]))) as [Hle|Hlt].
    + rewrite length_app in Hle. simpl in Hle. lia.
    + rewrite IH.
      * rewrite <- app_assoc. reflexivity.
      * rewrite length_app. simpl. lia.
Qed.

Lemma chunk_loop_fill (ws chunks cur : list jsstring) :
  ws <> [] -> length cur + length ws = m ->
  chunk_loop maxTokens ws chunks cur =
  (chunks ++ [join space (cur ++ ws)], []).
Proof.
  revert cur. induction ws as [|w ws IH]; intros cur Hne H; [congruence|].
  simpl. rewrite full_test. simpl in H.
  destruct ws as [|w' ws'].
  - destruct (Nat.leb_spec m (length (cur ++ [w]))) as [Hle|Hlt].
    + reflexivity.
    + rewrite length_app in Hlt. simpl in *. lia.
  - destruct (Nat.leb_spec m (length (cur ++ [w]))) as [Hle|Hlt].
    + rewrite length_app in Hle. simpl in *. lia.
    + rewrite IH.
      * rewrite <- app_assoc. reflexivity.
      * discriminate.
      * rewrite length_app. simpl in *. lia.
Qed.

Lemma slice_succ (i : nat) (ws : list jsstring) :
  slice m (S i) ws = slice m i (skipn m ws).
Proof.
  unfold slice. rewrite skipn_skipn, Nat.mul_succ_l. reflexivity.
Qed.

Lemma map_seq_succ {A} (f : nat -> A) (k : nat) :
  map f (seq 0 (S k)) = f 0 :: map (fun i => f (S i)) (seq 0 k).
Proof.
  simpl. f_equal. rewrite <- seq_shift, map_map. reflexivity.
Qed.

(** From an empty [currentChunk] the loop emits the [length ws / m] full
    groups and is left with the remaining words. *)
Lemma chunk_loop_groups (n : nat) :
  forall ws chunks, length ws <= n ->
  chunk_loop maxTokens ws chunks [] =
  (chunks ++ map (fun i => join space (slice m i ws))
                 (seq 0 (length ws / m)),
   skipn (length ws / m * m) ws).
Proof.
  pose proof maxTokens_nat_pos as Hm.
  induction n as [|n IH]; intros ws chunks Hn.
  - destruct ws; [|simpl in Hn; lia].
    simpl. rewrite Nat.Div0.div_0_l. simpl. rewrite app_nil_r. reflexivity.
  - destruct (Nat.lt_ge_cases (length ws) m) as [Hlt|Hge].
    + rewrite Nat.div_small by assumption. simpl.
      rewrite app_nil_r. apply (chunk_loop_short ws chunks []). simpl. lia.
    + rewrite <- (firstn_skipn m ws) at 1.
      rewrite chunk_loop_app.
      assert (Hlen : length (firstn m ws) = m)
        by (rewrite length_firstn; lia).
      rewrite (chunk_loop_fill (firstn m ws) chunks []);
        [| intros E; rewrite E in Hlen; simpl in Hlen; lia | simpl; lia].
      simpl fst; simpl snd. simpl app at 1.
      rewrite IH by (rewrite length_skipn; lia).
      assert (Hdiv : length ws / m = S (length (skipn m ws) / m)).
      { rewrite length_skipn.
        replace (length ws) with ((length ws - m) + 1 * m) at 1 by lia.
        rewrite Nat.div_add by lia. lia. }
      rewrite Hdiv, map_seq_succ. f_equal.
      * rewrite <- app_assoc. simpl. f_equal. f_equal.
        apply map_ext. intros i. rewrite slice_succ. reflexivity.
      * rewrite skipn_skipn. f_equal. lia.
Qed.

Lemma ceil_div_cases (n : nat) :
  ceil_div n m = if 0 <? n - n / m * m then S (n / m) else n / m.
Proof.
  pose proof maxTokens_nat_pos as Hm. unfold ceil_div.
  pose proof (Nat.div_mod_eq n m) as Hdm.
  pose proof (Nat.mod_upper_bound n m ltac:(lia)) as Hub.
  destruct (Nat.ltb_spec 0 (n - n / m * m)) as [Hr|Hr].
  - symmetry. apply Nat.div_unique with (r := n mod m - 1); nia.
  - symmetry. apply Nat.div_unique with (r := m - 1); nia.
Qed.

(** The chunks are the joined groups of [m] consecutive words. *)
Lemma chunkText_slices (text : jsstring) :
  chunkText text maxTokens =
  map (fun i => join space (slice m i (split_ws text)))
      (seq 0 (ceil_div (length (split_ws text)) m)).
Proof.
  pose proof maxTokens_nat_pos as Hm. unfold chunkText.
  set (ws := split_ws text).
  rewrite (chunk_loop_groups (length ws) ws []) by lia.
  rewrite ceil_div_cases, length_skipn. simpl app.
  destruct (0 <? length ws - length ws / m * m) eqn:E.
  - rewrite seq_S, map_app. simpl. unfold slice.
    rewrite firstn_all2; [reflexivity|].
    rewrite length_skipn.
    pose proof (Nat.div_mod_eq (length ws) m).
    pose proof (Nat.mod_upper_bound (length ws) m ltac:(lia)). nia.
  - reflexivity.
Qed.

End ChunkLoop.

Lemma lt_ceil_div (i n m : nat) :
  0 < m -> (i < ceil_div n m <-> i * m < n).
Proof.
  intros Hm. unfold ceil_div.
  pose proof (Nat.div_mod_eq (n + m - 1) m) as Hdm.
  pose proof (Nat.mod_upper_bound (n + m - 1) m ltac:(lia)) as Hub.
  split; intros H; nia.
Qed.

Lemma slice_length (m i : nat) (ws : list jsstring) :
  length (slice m i ws) = Nat.min m (length ws - i * m).
Proof. unfold slice. rewrite length_firstn, length_skipn. reflexivity. Qed.

Lemma chunkText_length (text : jsstring) (maxTokens : Z) :
  (0 < maxTokens)%Z ->
  length (chunkText text maxTokens) =
  ceil_div (length (split_ws text)) (Z.to_nat maxTokens).
Proof.
  intros H. rewrite chunkText_slices by assumption.
  rewrite length_map, length_seq. reflexivity.
Qed.

Lemma chunkText_nth (text : jsstring) (maxTokens : Z) (i : nat) :
  (0 < maxTokens)%Z ->
  i < length (chunkText text maxTokens) ->
  nth i (chunkText text maxTokens) [] =
  join space (slice (Z.to_nat maxTokens) i (split_ws text)).
Proof.
  intros H Hi. rewrite chunkText_length in Hi by assumption.
  rewrite chunkText_slices by assumption.
  set (f := fun i => join space (slice (Z.to_nat maxTokens) i (split_ws text))).
  rewrite (nth_indep _ [] (f 0)) by (rewrite length_map, length_seq; assumption).
  rewrite map_nth, seq_nth by assumption. reflexivity.
Qed.

Lemma concat_slices (m k : nat) :
  0 < m -> forall ws, length ws <= k * m ->
  concat (map (fun i => slice m i ws) (seq 0 k)) = ws.
Proof.
  intros Hm. induction k as [|k IH]; intros ws Hlen.
  - destruct ws; [reflexivity | simpl in Hlen; lia].
  - rewrite map_seq_succ. simpl concat.
    rewrite (map_ext _ (fun i => slice m i (skipn m ws))).
    + rewrite IH by (rewrite length_skipn; lia).
      unfold slice. simpl. apply firstn_skipn.
    + intros i. unfold slice. rewrite skipn_skipn, Nat.mul_succ_l. reflexivity.
Qed.

Lemma slice_separable (m i : nat) (ws : list jsstring) :
  separable ws -> separable (slice m i ws).
Proof.
  intros H. unfold slice.
  rewrite <- (firstn_skipn (i * m) ws) in H. apply separable_app_r in H.
  rewrite <- (firstn_skipn m (skipn (i * m) ws)) in H.
  apply separable_app_l in H. assumption.
Qed.

(** ** The chunker: claims *)

(** C2: the claim says that the empty input string yields no chunk.  The
    code yields one chunk, the empty string, for every maximum size:
    [split] gives the single word [""] for the empty string, it is pushed on
    [currentChunk], and the final test [currentChunk.length > 0] passes. *)
Theorem chunkText_empty_input (maxTokens : Z) :
  chunkText [] maxTokens = [[]].
Proof.
  unfold chunkText. simpl.
  destruct (maxTokens <=? 1)%Z; reflexivity.
Qed.

(** C7: the claim says that the last chunk is never empty unless the input
    is empty, and that every other chunk holds exactly [M] words.  On the
    code a text that ends with white space splits into a last piece that is
    the empty string, and that piece is pushed like a word: with ["a b "]
    and [M = 2] the last chunk is the empty string although the input is not
    empty; and with [" a b c"] the first chunk [" a"] holds the empty first
    piece and one word only. *)
Theorem chunkText_empty_piece_chunks :
  chunkText (lit "a b ") 2 = [lit "a b"; lit ""] /\
  chunkText (lit " a b c") 2 = [lit " a"; lit "b c"].
Proof. split; reflexivity. Qed.

(** The shape of the chunks, counting as words the pieces [split] returns
    (a first or last piece may be the empty string): for a positive maximum
    size [M], the [i]-th chunk is the [i]-th group of [M] consecutive pieces
    joined with single spaces, and splitting it gives these pieces back;
    every chunk but the last holds exactly [M] pieces, and the last chunk
    holds all the remaining ones, at least one and at most [M]. *)
Theorem chunkText_chunk_shape (text : jsstring) (maxTokens : Z) (i : nat) :
  (0 < maxTokens)%Z ->
  i < length (chunkText text maxTokens) ->
  let m := Z.to_nat maxTokens in
  let words := split_ws text in
  let chunks := chunkText text maxTokens in
  nth i chunks [] = join space (slice m i words) /\
  split_ws (nth i chunks []) = slice m i words /\
  (S i < length chunks -> length (slice m i words) = m) /\
  (S i = length chunks ->
     slice m i words = skipn (i * m) words /\
     1 <= length (slice m i words) <= m).
Proof.
  intros HM Hi m words chunks. subst chunks.
  split; [apply chunkText_nth; assumption|].
  rewrite chunkText_nth by assumption.
  rewrite chunkText_length in * by assumption. fold m words in Hi |- *.
  assert (Hm : 0 < m) by (subst m; lia).
  pose proof (proj1 (lt_ceil_div i (length words) m Hm) Hi) as Hlo.
  split.
  { apply split_ws_join.
    - intros E. assert (Hl : length (slice m i words) = 0)
        by (rewrite E; reflexivity).
      rewrite slice_length in Hl. lia.
    - apply slice_separable, split_ws_separable. }
  rewrite slice_length.
  split; intros Hlast.
  - apply (lt_ceil_div (S i) (length words) m Hm) in Hlast. simpl in Hlast. lia.
  - assert (Hhi : ~ S i * m < length words).
    { intros Hc. apply (lt_ceil_div (S i) (length words) m Hm) in Hc. lia. }
    simpl in Hhi. split; [|lia].
    unfold slice. apply firstn_all2. rewrite length_skipn. lia.
Qed.

(** C8: for a positive maximum size, splitting every chunk into its words
    and concatenating the results, in chunk order, gives back the word
    sequence of the input. *)
Theorem chunkText_words_roundtrip (text : jsstring) (maxTokens : Z) :
  (0 < maxTokens)%Z ->
  concat (map split_ws (chunkText text maxTokens)) = split_ws text.
Proof.
  intros HM. rewrite chunkText_slices by assumption.
  set (m := Z.to_nat maxTokens). set (ws := split_ws text).
  assert (Hm : 0 < m) by (subst m; lia).
  rewrite map_map.
  rewrite (map_ext_in _ (fun i => slice m i ws)).
  - apply concat_slices; [assumption|].
    destruct (Nat.le_gt_cases (length ws) (ceil_div (length ws) m * m))
      as [Hle|Hgt]; [assumption|].
    apply (lt_ceil_div _ _ _ Hm) in Hgt. lia.
  - intros i Hin. apply in_seq in Hin.
    apply split_ws_join.
    + intros E. assert (Hl : length (slice m i ws) = 0) by (rewrite E; reflexivity).
      rewrite slice_length in Hl.
      assert (i * m < length ws) by (apply (lt_ceil_div _ _ _ Hm); lia). lia.
    + apply slice_separable, split_ws_separable.
Qed.

Lemma chunkText_chunk_shape_witness :
  (0 < 2)%Z /\
  2 < length (chunkText (lit "a b c d e") 2) /\
  nth 2 (chunkText (lit "a b c d e") 2) [] =
    join space (slice 2 2 (split_ws (lit "a b c d e"))) /\
  split_ws (nth 2 (chunkText (lit "a b c d e") 2) []) =
    slice 2 2 (split_ws (lit "a b c d e")) /\
  (3 < length (chunkText (lit "a b c d e") 2) ->
     length (slice 2 2 (split_ws (lit "a b c d e"))) = 2) /\
  (3 = length (chunkText (lit "a b c d e") 2) ->
     slice 2 2 (split_ws (lit "a b c d e")) =
       skipn (2 * 2) (split_ws (lit "a b c d e")) /\
     1 <= length (slice 2 2 (split_ws (lit "a b c d e"))) <= 2).
Proof.
  split; [reflexivity|]. split; [vm_compute; lia|].
  apply (chunkText_chunk_shape (lit "a b c d e") 2 2);
    [reflexivity | vm_compute; lia].
Defined.

Lemma chunkText_words_roundtrip_witness :
  (0 < 2)%Z /\
  concat (map split_ws (chunkText (lit " a b  c ") 2)) =
    split_ws (lit " a b  c ").
Proof.
  split; [reflexivity|].
  apply (chunkText_words_roundtrip (lit " a b  c ") 2). reflexivity.
Defined.

(** ** Facts about the ingestion run *)

Lemma embed_rows_length_le (env : Env) (id : nat) (chunks : list jsstring) :
  forall i k, length (embed_rows env id i chunks k) <= length chunks.
Proof.
  induction chunks as [|c rest IH]; intros i k; simpl; [lia|].
  destruct (embedded env i c); simpl.
  - specialize (IH (S i) (S k)). lia.
  - specialize (IH (S i) k). lia.
Qed.

(** The loop never throws and leaves the store alone: it makes one call per
    chunk and appends the records of the calls that yield a vector. *)
Lemma embed_chunks_run (env : Env) (document : DocumentRow)
    (chunks : list jsstring) :
  forall i embeddings w,
    embed_chunks env document i chunks embeddings w =
    (log w (map EvEmbed chunks),
     inr (embeddings ++
          embed_rows env (doc_id document) i chunks (length embeddings))).
Proof.
  induction chunks as [|c rest IH]; intros i embs w.
  - simpl. unfold ret, log. simpl. rewrite !app_nil_r.
    destruct w; reflexivity.
  - cbn [embed_chunks embed_rows map].
    unfold bind at 1. unfold fetch_embedding, bind, emit, ret. simpl.
    unfold embedded.
    destruct (env_embed env i c) as [msg| |[v|]]; rewrite IH; unfold log; simpl;
      rewrite <- ?app_assoc; simpl; try reflexivity.
    rewrite length_app, Nat.add_1_r. reflexivity.
Qed.

Lemma embed_rows_index (env : Env) (id : nat) (chunks : list jsstring) :
  forall i k,
    map chunk_index (embed_rows env id i chunks k) =
    seq k (length (embed_rows env id i chunks k)).
Proof.
  induction chunks as [|c rest IH]; intros i k; simpl; [reflexivity|].
  destruct (embedded env i c); simpl; [f_equal|]; apply IH.
Qed.

Lemma embed_rows_document (env : Env) (id : nat) (chunks : list jsstring) :
  forall i k, Forall (fun row => document_id row = id)
                (embed_rows env id i chunks k).
Proof.
  induction chunks as [|c rest IH]; intros i k; simpl; [constructor|].
  destruct (embedded env i c); [constructor; [reflexivity|]|]; apply IH.
Qed.

Lemma embed_rows_positions_length (env : Env) (id : nat)
    (chunks : list jsstring) :
  forall i k, length (embed_rows env id i chunks k) =
              length (embedded_positions env i chunks).
Proof.
  induction chunks as [|c rest IH]; intros i k; simpl; [reflexivity|].
  unfold embed_ok. destruct (embedded env i c); simpl; [f_equal|]; apply IH.
Qed.

(** What a run does, case by case on the answers of the collaborators. *)
Lemma process_file_run (env : Env) (req : FileRequest) (w : World) :
  process_file env req w =
  match env_download env (fileUrl req) with
  | DownloadError message =>
      (log w [EvDownload (fileUrl req)],
       error_response (lit "Failed to download file: " ++ message))
  | DownloadData fileData =>
      let text := extract_text (fileType req) fileData in
      let called := [EvDownload (fileUrl req);
                     EvInsertDocument (fileName req) (fileType req) text
                       (fileUrl req)] in
      match env_insert_document env with
      | DocInsertError message =>
          (log w called,
           error_response (lit "Failed to store document: " ++ message))
      | DocInserted id created_at =>
          let w1 := add_document (log w called)
                      (document_of req fileData id created_at) in
          if configured (GEMINI_API_KEY env) then
            let chunks := chunkText text 500 in
            let rows := embed_rows env id 0 chunks 0 in
            let w2 := log w1 (map EvEmbed chunks) in
            if 0 <? length rows then
              match env_insert_embeddings env with
              | Some message =>
                  (log w2 [EvInsertEmbeddings rows],
                   error_response
                     (lit "Failed to store embeddings: " ++ message))
              | None =>
                  (add_embeddings (log w2 [EvInsertEmbeddings rows]) rows,
                   {| status := 200; body := Processed id (length rows) |})
              end
            else (w2, {| status := 200; body := Processed id 0 |})
          else
            (w1, error_response (lit "Gemini API key not configured"))
      end
  end.
Proof.
  unfold process_file, try_catch, process_file_body.
  unfold bind at 1. unfold storage_download, bind, emit, ret. simpl.
  destruct (env_download env (fileUrl req)) as [msg|fileData].
  - reflexivity.
  - unfold insert_document, bind, emit, ret, get_store, put_store. simpl.
    destruct (env_insert_document env) as [msg|id created_at].
    + unfold throw, log. simpl. rewrite <- app_assoc. reflexivity.
    + simpl. destruct (configured (GEMINI_API_KEY env)); simpl.
      * rewrite embed_chunks_run. simpl.
        set (rows := embed_rows env id 0 _ 0).
        destruct (0 <? length rows) eqn:E; simpl.
        -- unfold insert_embeddings, bind, emit, ret, get_store, put_store, throw.
           simpl.
           destruct (env_insert_embeddings env) as [msg|]; simpl;
             unfold log, add_embeddings, add_document, error_response; simpl;
             rewrite <- !app_assoc; simpl; reflexivity.
        -- unfold ret, log, add_document. simpl.
           rewrite <- !app_assoc. simpl.
           destruct rows; [reflexivity | discriminate].
      * unfold throw, log, add_document, error_response. simpl.
        rewrite <- app_assoc. reflexivity.
Qed.

Lemma embed_rows_none (env : Env) (id : nat) (chunks : list jsstring) :
  forall i k,
    (forall j, j < length chunks ->
               embed_ok env (i + j) (nth j chunks []) = false) ->
    embed_rows env id i chunks k = [].
Proof.
  induction chunks as [|c rest IH]; intros i k H; simpl; [reflexivity|].
  pose proof (H 0 ltac:(simpl; lia)) as H0.
  rewrite Nat.add_0_r in H0. simpl in H0. unfold embed_ok in H0.
  destruct (embedded env i c); [discriminate|].
  apply IH. intros j Hj. specialize (H (S j) ltac:(simpl; lia)).
  simpl in H. rewrite Nat.add_succ_r in H. exact H.
Qed.

(** The [j]-th record comes from the [j]-th chunk that was embedded: it
    carries that chunk's text and the rank [j], which is at most the
    chunk's position and smaller as soon as an earlier call failed. *)
Lemma embed_rows_rank (env : Env) (id : nat) (chunks : list jsstring) :
  forall i k j p,
    nth_error (embedded_positions env i chunks) j = Some p ->
    (exists row,
        nth_error (embed_rows env id i chunks k) j = Some row /\
        content row = nth (p - i) chunks [] /\
        chunk_index row = k + j) /\
    i + j <= p /\
    ((exists q, i <= q < p /\
                embed_ok env q (nth (q - i) chunks []) = false) ->
     i + j < p).
Proof.
  induction chunks as [|c rest IH]; intros i k j p Hp.
  - destruct j; discriminate.
  - simpl in Hp |- *. unfold embed_ok in *.
    destruct (embedded env i c) as [v|] eqn:Ev.
    + destruct j as [|j'].
      * simpl in Hp. injection Hp as <-. split; [|split].
        -- eexists. split; [reflexivity|]. simpl.
           rewrite Nat.sub_diag, Nat.add_0_r. split; reflexivity.
        -- lia.
        -- intros [q [Hq _]]. lia.
      * simpl in Hp. destruct (IH (S i) (S k) j' p Hp) as [[row [Hr [Hc Hi]]] [Hle Hfail]].
        split; [|split].
        -- exists row. split; [exact Hr|]. split; [|lia].
           rewrite Hc. replace (p - i) with (S (p - S i)) by lia. reflexivity.
        -- lia.
        -- intros [q [Hq Hf]].
           destruct (Nat.eq_dec q i) as [->|Hne].
           ++ rewrite Nat.sub_diag in Hf. simpl in Hf. rewrite Ev in Hf.
              discriminate.
           ++ assert (S i + j' < p); [|lia].
              apply Hfail. exists q. split; [lia|].
              replace (q - i) with (S (q - S i)) in Hf by lia. exact Hf.
    + destruct (IH (S i) k j p Hp) as [[row [Hr [Hc Hi]]] [Hle Hfail]].
      split; [|split].
      * exists row. split; [exact Hr|]. split; [|exact Hi].
        rewrite Hc. replace (p - i) with (S (p - S i)) by lia. reflexivity.
      * lia.
      * intros _. lia.
Qed.

(** ** Ingestion: claims *)

(** C1: the claim says that a file of a type without a text extractor, PDF
    included, is rejected and no Document record is stored.  The code has no
    rejecting branch: for [application/pdf] it takes the text decoding of the
    downloaded bytes as the document text, stores the Document record with
    it, and the run goes on to chunking and embedding. *)
Theorem pdf_stored_as_decoded_text (env : Env) (req : FileRequest)
    (w : World) (fileData : Blob) (id created_at : nat) :
  fileType req = lit "application/pdf" ->
  env_download env (fileUrl req) = DownloadData fileData ->
  env_insert_document env = DocInserted id created_at ->
  documents (store (fst (process_file env req w))) =
    documents (store w) ++
    [{| doc_id := id; doc_name := fileName req;
        doc_type := lit "application/pdf";
        doc_content := blob_text fileData;
        doc_originalUrl := fileUrl req;
        doc_created_at := created_at |}] /\
  (configured (GEMINI_API_KEY env) = true ->
   env_insert_embeddings env = None ->
   status (snd (process_file env req w)) = 200).
Proof.
  intros Ht Hd Hi. rewrite process_file_run, Hd, Hi.
  unfold document_of. rewrite Ht.
  change (extract_text (lit "application/pdf") fileData)
    with (blob_text fileData).
  cbv zeta. split.
  - destruct (configured (GEMINI_API_KEY env)); [|reflexivity].
    destruct (0 <? _); [|reflexivity].
    destruct (env_insert_embeddings env); reflexivity.
  - intros -> ->. destruct (0 <? _); reflexivity.
Qed.

Lemma pdf_stored_as_decoded_text_witness :
  let env := sample_env (lit "%PDF-1.4 obj stream") (fun _ => true) None
               GenNotOk in
  let req := {| fileName := lit "plan.pdf"; fileUrl := lit "1-plan.pdf";
                fileType := lit "application/pdf" |} in
  documents (store (fst (process_file env req empty_world))) =
    [{| doc_id := 7; doc_name := lit "plan.pdf";
        doc_type := lit "application/pdf";
        doc_content := lit "%PDF-1.4 obj stream";
        doc_originalUrl := lit "1-plan.pdf";
        doc_created_at := 100 |}] /\
  status (snd (process_file env req empty_world)) = 200.
Proof.
  intros env req.
  destruct (pdf_stored_as_decoded_text env req empty_world
              {| blob_text := lit "%PDF-1.4 obj stream" |} 7 100
              eq_refl eq_refl eq_refl) as [Hdoc Hok].
  split; [exact Hdoc | exact (Hok eq_refl eq_refl)].
Defined.

(** C3, as stated, fails: when the batch insert of the embeddings fails,
    the run answers with an error and the Document record it inserted is
    still in the store. *)
Lemma failed_batch_insert_keeps_document :
  let env := sample_env (lit "a b c") (fun _ => true)
               (Some (lit "timeout")) GenNotOk in
  let run := process_file env sample_request empty_world in
  snd run =
    error_response (lit "Failed to store embeddings: timeout") /\
  documents (store (fst run)) =
    [document_of sample_request {| blob_text := lit "a b c" |} 7 100] /\
  embeddings (store (fst run)) = [].
Proof. vm_compute. repeat split. Qed.

(** C3, amended: a run that ends with an error response stores no embedding
    record.  If it aborted at the download or at the insert of the Document
    record the store is unchanged; if it aborted later (no API key, or a
    failed batch insert of the embeddings) the Document record stays in the
    store, without embeddings. *)
Theorem aborted_run_store (env : Env) (req : FileRequest) (w : World) :
  status (snd (process_file env req w)) = 500 ->
  embeddings (store (fst (process_file env req w))) = embeddings (store w) /\
  documents (store (fst (process_file env req w))) =
    match env_download env (fileUrl req), env_insert_document env with
    | DownloadData fileData, DocInserted id created_at =>
        documents (store w) ++ [document_of req fileData id created_at]
    | _, _ => documents (store w)
    end.
Proof.
  rewrite process_file_run.
  destruct (env_download env (fileUrl req)) as [msg|fileData];
    [intros _; split; reflexivity|].
  cbv zeta.
  destruct (env_insert_document env) as [msg|id created_at];
    [intros _; split; reflexivity|].
  destruct (configured (GEMINI_API_KEY env)); [|intros _; split; reflexivity].
  destruct (0 <? _); [|discriminate].
  destruct (env_insert_embeddings env); [|discriminate].
  intros _; split; reflexivity.
Qed.

Lemma aborted_run_store_witness :
  let env := sample_env (lit "a b c") (fun _ => true)
               (Some (lit "timeout")) GenNotOk in
  let run := process_file env sample_request empty_world in
  status (snd run) = 500 /\
  embeddings (store (fst run)) = [] /\
  documents (store (fst run)) =
    [document_of sample_request {| blob_text := lit "a b c" |} 7 100].
Proof.
  intros env run. split; [reflexivity|].
  exact (aborted_run_store env sample_request empty_world eq_refl).
Defined.

(** C5: when the file is downloaded, the Document record is stored, the API
    key is set, the text makes three chunks, the embedding call fails for
    exactly one of them, number [i], and the batch insert succeeds, the run
    answers with status 200 and [chunksProcessed = 2]; all three embedding
    calls are made, and the two records stored are those of the other two
    chunks, in order. *)
Theorem one_failed_embedding_of_three (env : Env) (req : FileRequest)
    (w : World) (fileData : Blob) (id created_at : nat)
    (c0 c1 c2 : jsstring) (i : nat) :
  env_download env (fileUrl req) = DownloadData fileData ->
  env_insert_document env = DocInserted id created_at ->
  configured (GEMINI_API_KEY env) = true ->
  env_insert_embeddings env = None ->
  chunkText (extract_text (fileType req) fileData) 500 = [c0; c1; c2] ->
  i < 3 ->
  (forall j, j < 3 ->
     embed_ok env j (nth j [c0; c1; c2] []) = negb (j =? i)) ->
  let run := process_file env req w in
  snd run = {| status := 200; body := Processed id 2 |} /\
  exists r0 r1,
    embeddings (store (fst run)) = embeddings (store w) ++ [r0; r1] /\
    map content [r0; r1] = firstn i [c0; c1; c2] ++ skipn (S i) [c0; c1; c2] /\
    map document_id [r0; r1] = [id; id] /\
    documents (store (fst run)) =
      documents (store w) ++ [document_of req fileData id created_at] /\
    trace (fst run) =
      trace w ++
      [EvDownload (fileUrl req);
       EvInsertDocument (fileName req) (fileType req)
         (extract_text (fileType req) fileData) (fileUrl req);
       EvEmbed c0; EvEmbed c1; EvEmbed c2;
       EvInsertEmbeddings [r0; r1]].
Proof.
  intros Hd Hi Hk Hb Hc Hlt Hfail run. subst run.
  rewrite process_file_run, Hd, Hi, Hk. cbv zeta. rewrite Hc.
  pose proof (Hfail 0 ltac:(lia)) as H0.
  pose proof (Hfail 1 ltac:(lia)) as H1.
  pose proof (Hfail 2 ltac:(lia)) as H2.
  unfold embed_ok in H0, H1, H2. simpl nth in H0, H1, H2.
  cbn [embed_rows].
  destruct i as [|[|[|i]]]; [| | |lia]; simpl in H0, H1, H2;
    destruct (embedded env 0 c0); try discriminate;
    destruct (embedded env 1 c1); try discriminate;
    destruct (embedded env 2 c2); try discriminate;
    simpl; rewrite Hb; simpl;
    (split; [reflexivity|]);
    do 2 eexists; rewrite <- !app_assoc; simpl; repeat split; reflexivity.
Qed.

Lemma one_failed_embedding_of_three_witness :
  let env := sample_env (words_text 1200) (fun j => negb (j =? 1)) None
               GenNotOk in
  chunkText (words_text 1200) 500 =
    [words_text 500; words_text 500; words_text 200] /\
  embed_ok env 1 (words_text 500) = false /\
  snd (process_file env sample_request empty_world) =
    {| status := 200; body := Processed 7 2 |}.
Proof.
  intros env.
  assert (Hc : chunkText (words_text 1200) 500 =
               [words_text 500; words_text 500; words_text 200])
    by (vm_compute; reflexivity).
  split; [exact Hc|]. split; [reflexivity|].
  refine (proj1 (one_failed_embedding_of_three env sample_request empty_world
                   {| blob_text := words_text 1200 |} 7 100
                   (words_text 500) (words_text 500) (words_text 200) 1
                   eq_refl eq_refl eq_refl eq_refl Hc _ _)).
  - lia.
  - intros [|[|[|j]]] Hj; [reflexivity | reflexivity | reflexivity | lia].
Defined.

(** C6, as stated, fails: for a 1200-word file declared as [text/plain]
    the text extraction matches no branch and leaves the empty text, so the
    run, with every call succeeding, stores a Document record with empty
    content and a single embedding record, for the empty chunk, and answers
    [chunksProcessed = 1]. *)
Lemma plain_text_type_is_not_decoded :
  let env := sample_env (words_text 1200) (fun _ => true) None GenNotOk in
  let req := {| fileName := lit "notes.txt"; fileUrl := lit "1-notes.txt";
                fileType := lit "text/plain" |} in
  let run := process_file env req empty_world in
  length (split_ws (words_text 1200)) = 1200 /\
  snd run = {| status := 200; body := Processed 7 1 |} /\
  map doc_content (documents (store (fst run))) = [lit ""] /\
  map (fun row => (content row, chunk_index row))
    (embeddings (store (fst run))) = [(lit "", 0)].
Proof. vm_compute. repeat split. Qed.

Lemma inner_nonempty_words (ws : list jsstring) :
  inner_nonempty ws -> length ws <= length (filter is_word ws) + 1.
Proof.
  induction ws as [|w rest IH]; intros Hi; [simpl; lia|].
  destruct rest as [|w2 rest'].
  - simpl. destruct (is_word w); simpl; lia.
  - simpl in Hi. destruct Hi as [Hw Hi]. specialize (IH Hi).
    destruct w as [|c w']; [congruence|].
    change (filter is_word ((c :: w') :: w2 :: rest'))
      with ((c :: w') :: filter is_word (w2 :: rest')).
    simpl length in *. lia.
Qed.

(** Only the first and the last piece of a split can be empty: a text of
    [n] words splits into [n], [n + 1] or [n + 2] pieces. *)
Lemma split_ws_word_count (text : jsstring) :
  word_count text <= length (split_ws text) <= word_count text + 2.
Proof.
  unfold word_count. split; [apply filter_length_le|].
  pose proof (split_ws_inner text) as Hi.
  destruct (split_ws text) as [|w rest]; [simpl; lia|].
  simpl in Hi. apply inner_nonempty_words in Hi.
  simpl. destruct (is_word w); simpl; lia.
Qed.

Lemma ceil_div_eq (n m k : nat) :
  0 < m -> k * m < n -> n <= S k * m -> ceil_div n m = S k.
Proof.
  intros Hm Hlo Hhi.
  assert (H1 : k < ceil_div n m) by (apply (lt_ceil_div k n m Hm); exact Hlo).
  assert (H2 : ~ S k < ceil_div n m).
  { intros H. apply (lt_ceil_div (S k) n m Hm) in H. lia. }
  lia.
Qed.

(** C6, amended: for a file declared as a text type the handler decodes
    ([text/csv] or [application/vnd.ms-excel]) whose text has 1200 words,
    whatever white space stands between, before and after them, when the
    download, the Document insert, every embedding call and the batch insert
    succeed, the run stores exactly three embedding records for the
    document, with chunk indices 0, 1 and 2, and answers
    [chunksProcessed = 3].  Their contents are the three chunks of the text:
    500 pieces of the split each for the first two, and the remaining ones
    for the third (the last 200 words, and the empty pieces a leading or
    trailing white space leaves, if any). *)
Theorem ingest_1200_words (env : Env) (req : FileRequest) (w : World)
    (fileData : Blob) (id created_at : nat) :
  fileType req = lit "text/csv" \/
    fileType req = lit "application/vnd.ms-excel" ->
  env_download env (fileUrl req) = DownloadData fileData ->
  env_insert_document env = DocInserted id created_at ->
  configured (GEMINI_API_KEY env) = true ->
  env_insert_embeddings env = None ->
  word_count (blob_text fileData) = 1200 ->
  (forall i chunk, embed_ok env i chunk = true) ->
  let run := process_file env req w in
  let words := split_ws (blob_text fileData) in
  snd run = {| status := 200; body := Processed id 3 |} /\
  exists v0 v1 v2,
    embeddings (store (fst run)) =
    embeddings (store w) ++
    [{| document_id := id; content := join space (slice 500 0 words);
        embedding := v0; chunk_index := 0 |};
     {| document_id := id; content := join space (slice 500 1 words);
        embedding := v1; chunk_index := 1 |};
     {| document_id := id; content := join space (slice 500 2 words);
        embedding := v2; chunk_index := 2 |}] /\
    length (slice 500 0 words) = 500 /\
    length (slice 500 1 words) = 500 /\
    200 <= length (slice 500 2 words) <= 202.
Proof.
  intros Ht Hd Hi Hk Hb Hn Hok run words. subst run.
  assert (Hx : extract_text (fileType req) fileData = blob_text fileData)
    by (destruct Ht as [-> | ->]; reflexivity).
  pose proof (split_ws_word_count (blob_text fileData)) as Hpieces.
  rewrite Hn in Hpieces. fold words in Hpieces.
  rewrite process_file_run, Hd, Hi, Hk. cbv zeta. rewrite Hx.
  rewrite chunkText_slices by reflexivity. fold words.
  change (Z.to_nat 500) with 500.
  rewrite (ceil_div_eq (length words) 500 2) by lia.
  cbn [seq map embed_rows].
  pose proof (Hok 0 (join space (slice 500 0 words))) as H0.
  pose proof (Hok 1 (join space (slice 500 1 words))) as H1.
  pose proof (Hok 2 (join space (slice 500 2 words))) as H2.
  unfold embed_ok in H0, H1, H2.
  destruct (embedded env 0 _) as [v0|]; [|discriminate].
  destruct (embedded env 1 _) as [v1|]; [|discriminate].
  destruct (embedded env 2 _) as [v2|]; [|discriminate].
  cbn [length Nat.ltb Nat.leb]. rewrite Hb.
  split; [reflexivity|].
  exists v0, v1, v2. split; [reflexivity|].
  rewrite !slice_length. lia.
Qed.

Lemma ingest_1200_words_witness :
  let text := (words_text 1200 ++ [10])%N in
  let env := sample_env text (fun _ => true) None GenNotOk in
  let run := process_file env sample_request empty_world in
  word_count text = 1200 /\
  length (split_ws text) = 1201 /\
  snd run = {| status := 200; body := Processed 7 3 |} /\
  map chunk_index (embeddings (store (fst run))) = [0; 1; 2].
Proof.
  intros text env run.
  assert (Hn : word_count text = 1200) by (vm_compute; reflexivity).
  split; [exact Hn|]. split; [vm_compute; reflexivity|].
  destruct (ingest_1200_words env sample_request empty_world
              {| blob_text := text |} 7 100
              (or_introl eq_refl) eq_refl eq_refl eq_refl eq_refl Hn
              (fun _ _ => eq_refl)) as [Hr [v0 [v1 [v2 [He _]]]]].
  split; [exact Hr|]. subst run. rewrite He. reflexivity.
Defined.

(** C9: in every run the embedding records added to the store carry the
    chunk indices 0, 1, ..., k-1, in the order they are stored.  In a run
    that reaches the embedding loop, the array the loop builds has one
    record per chunk whose embedding call yields a vector, in chunk order,
    and the [j]-th of them carries [chunk_index = j], the number of records
    pushed before it, whichever calls failed.  The rank [j] is at most the
    position [p] of the chunk in the chunk sequence, and is strictly smaller
    when the call of an earlier chunk failed.  These are the records the run
    stores when it succeeds; a run that ends with an error stores none. *)
Theorem chunk_index_is_rank (env : Env) (req : FileRequest) (w : World) :
  let run := process_file env req w in
  (exists stored,
      embeddings (store (fst run)) = embeddings (store w) ++ stored /\
      map chunk_index stored = seq 0 (length stored)) /\
  forall fileData id created_at,
    env_download env (fileUrl req) = DownloadData fileData ->
    env_insert_document env = DocInserted id created_at ->
    configured (GEMINI_API_KEY env) = true ->
    let chunks := chunkText (extract_text (fileType req) fileData) 500 in
    let positions := embedded_positions env 0 chunks in
    exists rows,
      embeddings (store (fst run)) =
        embeddings (store w) ++
        (if status (snd run) =? 200 then rows else []) /\
      length rows = length positions /\
      map chunk_index rows = seq 0 (length rows) /\
      forall j p,
        nth_error positions j = Some p ->
        (exists row, nth_error rows j = Some row /\
                     content row = nth p chunks [] /\
                     chunk_index row = j) /\
        j <= p /\
        ((exists q, q < p /\ embed_ok env q (nth q chunks []) = false) ->
         j < p).
Proof.
  intros run. subst run. split.
  - rewrite process_file_run.
    destruct (env_download env (fileUrl req)) as [msg|fileData];
      [exists []; rewrite app_nil_r; split; reflexivity|].
    cbv zeta.
    destruct (env_insert_document env) as [msg|id created_at];
      [exists []; rewrite app_nil_r; split; reflexivity|].
    destruct (configured (GEMINI_API_KEY env));
      [|exists []; simpl; rewrite app_nil_r; split; reflexivity].
    destruct (0 <? _);
      [|exists []; simpl; rewrite app_nil_r; split; reflexivity].
    destruct (env_insert_embeddings env);
      [exists []; simpl; rewrite app_nil_r; split; reflexivity|].
    eexists. split; [reflexivity | apply embed_rows_index].
  - intros fileData id created_at Hd Hi Hk chunks positions.
    exists (embed_rows env id 0 chunks 0).
    split; [|split; [|split]].
    + rewrite process_file_run, Hd, Hi, Hk. cbv zeta. fold chunks.
      destruct (0 <? length (embed_rows env id 0 chunks 0)) eqn:E.
      * destruct (env_insert_embeddings env); simpl;
          [rewrite app_nil_r|]; reflexivity.
      * simpl. destruct (embed_rows env id 0 chunks 0); [|discriminate].
        rewrite app_nil_r. reflexivity.
    + apply embed_rows_positions_length.
    + apply embed_rows_index.
    + intros j p Hp.
      destruct (embed_rows_rank env id chunks 0 0 j p Hp)
        as [[row [Hr [Hc Hx]]] [Hle Hlt]].
      rewrite Nat.sub_0_r in Hc. simpl in Hx, Hle, Hlt.
      split; [exists row; auto|]. split; [exact Hle|].
      intros [q [Hq Hf]]. apply Hlt. exists q.
      rewrite Nat.sub_0_r. split; [lia | exact Hf].
Qed.

Lemma chunk_index_is_rank_witness :
  let env := sample_env (words_text 1200) (fun j => negb (j =? 0)) None
               GenNotOk in
  let run := process_file env sample_request empty_world in
  let chunks := chunkText (words_text 1200) 500 in
  let positions := embedded_positions env 0 chunks in
  positions = [1; 2] /\
  embed_ok env 0 (nth 0 chunks []) = false /\
  exists rows,
    embeddings (store (fst run)) =
      [] ++ (if status (snd run) =? 200 then rows else []) /\
    length rows = length positions /\
    map chunk_index rows = seq 0 (length rows) /\
    forall j p,
      nth_error positions j = Some p ->
      (exists row, nth_error rows j = Some row /\
                   content row = nth p chunks [] /\
                   chunk_index row = j) /\
      j <= p /\
      ((exists q, q < p /\ embed_ok env q (nth q chunks []) = false) ->
       j < p).
Proof.
  intros env run chunks positions.
  split; [vm_compute; reflexivity|]. split; [vm_compute; reflexivity|].
  exact (proj2 (chunk_index_is_rank env sample_request empty_world)
           {| blob_text := words_text 1200 |} 7 100
           eq_refl eq_refl eq_refl).
Defined.

(** C10: when the file is downloaded, the Document record is stored and the
    API key is set, but no embedding call of the run yields a vector, the
    run makes no call to insert embeddings, leaves the Document record in
    the store with no embedding record added, and answers with status 200
    and [chunksProcessed = 0]. *)
Theorem nothing_embedded (env : Env) (req : FileRequest) (w : World)
    (fileData : Blob) (id created_at : nat) :
  env_download env (fileUrl req) = DownloadData fileData ->
  env_insert_document env = DocInserted id created_at ->
  configured (GEMINI_API_KEY env) = true ->
  let run := process_file env req w in
  let text := extract_text (fileType req) fileData in
  let chunks := chunkText text 500 in
  (forall j, j < length chunks ->
             embed_ok env j (nth j chunks []) = false) ->
  snd run = {| status := 200; body := Processed id 0 |} /\
  documents (store (fst run)) =
    documents (store w) ++ [document_of req fileData id created_at] /\
  embeddings (store (fst run)) = embeddings (store w) /\
  trace (fst run) =
    trace w ++
    [EvDownload (fileUrl req);
     EvInsertDocument (fileName req) (fileType req) text (fileUrl req)] ++
    map EvEmbed chunks /\
  forall batch,
    In (EvInsertEmbeddings batch) (trace (fst run)) ->
    In (EvInsertEmbeddings batch) (trace w).
Proof.
  intros Hd Hi Hk run text chunks Hfail.
  assert (Hrun : run =
            (log (add_document
                    (log w [EvDownload (fileUrl req);
                            EvInsertDocument (fileName req) (fileType req)
                              text (fileUrl req)])
                    (document_of req fileData id created_at))
                 (map EvEmbed chunks),
             {| status := 200; body := Processed id 0 |})).
  { subst run. rewrite process_file_run, Hd, Hi, Hk. cbv zeta.
    fold text. fold chunks.
    rewrite (embed_rows_none env id chunks 0 0) by exact Hfail.
    reflexivity. }
  rewrite Hrun. simpl.
  repeat split; try reflexivity.
  - rewrite <- app_assoc. reflexivity.
  - intros batch Hin. rewrite <- app_assoc in Hin.
    apply in_app_or in Hin. destruct Hin as [Hin|Hin]; [exact Hin|].
    simpl in Hin. destruct Hin as [Hin|[Hin|Hin]]; try discriminate.
    apply in_map_iff in Hin. destruct Hin as [c [Hc _]]. discriminate.
Qed.

Lemma nothing_embedded_witness :
  let env := sample_env (lit "a b c") (fun _ => false) None GenNotOk in
  let run := process_file env sample_request empty_world in
  snd run = {| status := 200; body := Processed 7 0 |} /\
  documents (store (fst run)) =
    [document_of sample_request {| blob_text := lit "a b c" |} 7 100] /\
  embeddings (store (fst run)) = [] /\
  trace (fst run) =
    [EvDownload (fileUrl sample_request);
     EvInsertDocument (fileName sample_request) (fileType sample_request)
       (lit "a b c") (fileUrl sample_request);
     EvEmbed (lit "a b c")].
Proof.
  intros env run.
  destruct (nothing_embedded env sample_request empty_world
              {| blob_text := lit "a b c" |} 7 100
              eq_refl eq_refl eq_refl (fun _ _ => eq_refl))
    as [Hr [Hdoc [Hemb [Htr _]]]].
  repeat split; assumption.
Defined.

(** ** Retrieval: claims *)

(** What a retrieval run does, case by case on the answers of the
    collaborators. *)
Lemma query_rag_run (env : Env) (question : jsstring) (w : World) :
  query_rag env question w =
  if configured (GEMINI_API_KEY env) then
    match env_embed env 0 question with
    | EmbedThrows message =>
        (log w [EvEmbed question], error_response message)
    | EmbedNotOk =>
        (log w [EvEmbed question],
         error_response (lit "Failed to generate question embedding"))
    | EmbedValues None =>
        (log w [EvEmbed question],
         error_response (lit "No embedding generated for question"))
    | EmbedValues (Some questionVector) =>
        let search := EvMatchDocuments questionVector (7 # 10) 5 in
        let '(relevantContext, lookups) :=
          match env_match_documents env questionVector with
          | RpcError _ =>
              (context_of
                 (if env_select_documents_fails env then None
                  else Some (map doc_content
                               (firstn 3 (documents (store w))))),
               [search; EvSelectDocuments 3])
          | RpcData similarChunks => (context_of similarChunks, [search])
          end in
        let prompt := build_prompt relevantContext question in
        (log w ([EvEmbed question] ++ lookups ++ [EvGenerate prompt]),
         match env_generate env prompt with
         | GenThrows message => error_response message
         | GenNotOk =>
             error_response (lit "Failed to generate response from Gemini")
         | GenText text =>
             {| status := 200;
                body := Answer
                          match text with
                          | Some (c :: t) => c :: t
                          | _ => lit "Sorry, I could not generate a response."
                          end |}
         end)
    end
  else (w, error_response (lit "Gemini API key not configured")).
Proof.
  unfold query_rag, try_catch, query_rag_body.
  destruct (configured (GEMINI_API_KEY env)); [|reflexivity].
  cbn [negb]. unfold bind at 1.
  unfold fetch_embedding, bind, emit, ret. cbn [fst snd store trace].
  destruct (env_embed env 0 question) as [msg| |[v|]]; try reflexivity.
  unfold rpc_match_documents, bind, emit, ret. cbn [fst snd store trace].
  unfold select_documents_content, fetch_generate, bind, emit, ret, get_store,
    throw.
  destruct (env_match_documents env v) as [msg|sc]; cbn [fst snd store trace].
  - destruct (env_select_documents_fails env); cbn [fst snd store trace];
      match goal with
      | |- context [env_generate env ?p] =>
          destruct (env_generate env p) as [thrown| |text]
      end;
      unfold log, error_response; cbn [fst snd store trace app];
      rewrite <- !app_assoc; reflexivity.
  - match goal with
    | |- context [env_generate env ?p] =>
        destruct (env_generate env p) as [thrown| |text]
    end;
      unfold log, error_response; cbn [fst snd store trace app];
      rewrite <- !app_assoc; reflexivity.
Qed.

(** C4: the claim says that the fallback uses the three most recently
    created documents.  The code asks the store for the content of three
    documents without asking for any order, although its comment reads "get
    recent documents": whatever the creation times of the rows, the context
    is made of the first three rows the store holds, joined by a blank
    line, and a document that comes after them is left out, the most
    recently created one included.  The answer itself is not an error when
    the generation call returns a body. *)
Theorem fallback_takes_first_rows (env : Env) (question : jsstring)
    (w : World) (questionVector : Vector) (message : jsstring)
    (r1 r2 r3 : DocumentRow) (rest : list DocumentRow) :
  configured (GEMINI_API_KEY env) = true ->
  env_embed env 0 question = EmbedValues (Some questionVector) ->
  env_match_documents env questionVector = RpcError message ->
  env_select_documents_fails env = false ->
  documents (store w) = r1 :: r2 :: r3 :: rest ->
  let prompt :=
    build_prompt
      (join (nl ++ nl) [doc_content r1; doc_content r2; doc_content r3])
      question in
  trace (fst (query_rag env question w)) =
    trace w ++
    [EvEmbed question; EvMatchDocuments questionVector (7 # 10) 5;
     EvSelectDocuments 3; EvGenerate prompt] /\
  (forall text,
     env_generate env prompt = GenText text ->
     status (snd (query_rag env question w)) = 200).
Proof.
  intros Hk He Hs Hsel Hdocs prompt.
  rewrite query_rag_run, Hk, He. cbv zeta. rewrite Hs, Hsel, Hdocs.
  cbn [firstn map context_of]. fold prompt.
  split; [reflexivity|].
  intros text Hg. cbn [snd]. rewrite Hg. reflexivity.
Qed.

Lemma fallback_takes_first_rows_witness :
  let table := [sample_document 1 1 (lit "d1"); sample_document 2 2 (lit "d2");
                sample_document 3 3 (lit "d3"); sample_document 4 4 (lit "d4")] in
  let w := {| store := {| documents := table; embeddings := [] |};
              trace := [] |} in
  let env := sample_env [] (fun _ => true) None (GenText (Some (lit "ok"))) in
  map doc_created_at table = [1; 2; 3; 4] /\
  trace (fst (query_rag env (lit "q") w)) =
    [EvEmbed (lit "q");
     EvMatchDocuments [1 # 2; 1 # 4] (7 # 10) 5;
     EvSelectDocuments 3;
     EvGenerate
       (build_prompt (join (nl ++ nl) [lit "d1"; lit "d2"; lit "d3"])
          (lit "q"))] /\
  status (snd (query_rag env (lit "q") w)) = 200.
Proof.
  intros table w env. split; [reflexivity|].
  destruct (fallback_takes_first_rows env (lit "q") w [1 # 2; 1 # 4]
              (lit "function not found")
              (sample_document 1 1 (lit "d1")) (sample_document 2 2 (lit "d2"))
              (sample_document 3 3 (lit "d3")) [sample_document 4 4 (lit "d4")]
              eq_refl eq_refl eq_refl eq_refl eq_refl) as [Ht Hs].
  split; [exact Ht | exact (Hs (Some (lit "ok")) eq_refl)].
Defined.

(** ** The chunker: further properties *)

Lemma chunk_loop_singletons (maxTokens : Z) (ws : list jsstring) :
  (maxTokens <= 1)%Z ->
  forall chunks, chunk_loop maxTokens ws chunks [] = (chunks ++ ws, []).
Proof.
  intros HM. induction ws as [|w ws IH]; intros chunks; simpl.
  - rewrite app_nil_r. reflexivity.
  - destruct (Z.leb_spec maxTokens 1) as [_|H]; [|lia].
    rewrite IH, <- app_assoc. reflexivity.
Qed.

Lemma chunkText_singletons (text : jsstring) (maxTokens : Z) :
  (maxTokens <= 1)%Z -> chunkText text maxTokens = split_ws text.
Proof.
  intros HM. unfold chunkText.
  rewrite chunk_loop_singletons by assumption. reflexivity.
Qed.

Lemma ceil_div_pos (n m : nat) : 0 < m -> 0 < n -> 0 < ceil_div n m.
Proof.
  intros Hm Hn. apply (lt_ceil_div 0 n m Hm). simpl. exact Hn.
Qed.

Lemma ceil_div_le (n m : nat) : 0 < m -> ceil_div n m <= n.
Proof.
  intros Hm. destruct (Nat.le_gt_cases (ceil_div n m) n) as [H|H]; [exact H|].
  apply (lt_ceil_div n n m Hm) in H. nia.
Qed.

(** X1: For a positive maximum size the number of chunks is the number of words
    divided by the size, rounded up; it is at least one, because [split]
    always returns at least one word, and at most the number of words. *)
Theorem chunkText_count (text : jsstring) (maxTokens : Z) :
  (0 < maxTokens)%Z ->
  length (chunkText text maxTokens) =
    ceil_div (length (split_ws text)) (Z.to_nat maxTokens) /\
  1 <= length (chunkText text maxTokens) <= length (split_ws text).
Proof.
  intros HM. rewrite chunkText_length by assumption.
  pose proof (split_ws_length_pos text) as Hn.
  split; [reflexivity|]. split.
  - apply ceil_div_pos; lia.
  - apply ceil_div_le. lia.
Qed.

Lemma chunkText_count_witness :
  (0 < 2)%Z /\
  length (chunkText (lit "a b c d e") 2) =
    ceil_div (length (split_ws (lit "a b c d e"))) (Z.to_nat 2) /\
  1 <= length (chunkText (lit "a b c d e") 2) <=
    length (split_ws (lit "a b c d e")).
Proof.
  split; [reflexivity|].
  apply (chunkText_count (lit "a b c d e") 2). reflexivity.
Defined.



(** X3: With a maximum size of one or less (zero and negative sizes included)
    the test [currentChunk.length >= maxTokens] passes after every word, so
    every word is a chunk of its own. *)
Theorem chunkText_small_max (text : jsstring) (maxTokens : Z) :
  (maxTokens <= 1)%Z -> chunkText text maxTokens = split_ws text.
Proof. apply chunkText_singletons. Qed.

Lemma chunkText_small_max_witness :
  (0 <= 1)%Z /\ chunkText (lit "a b  c") 0 = [lit "a"; lit "b"; lit "c"].
Proof.
  split; [lia|].
  apply (chunkText_small_max (lit "a b  c") 0). lia.
Defined.

(** X4: Whatever the text and the maximum size, [chunkText] returns at least one
    chunk. *)
Theorem chunkText_never_empty (text : jsstring) (maxTokens : Z) :
  chunkText text maxTokens <> [].
Proof.
  destruct (Z.le_gt_cases maxTokens 1) as [H|H].
  - rewrite chunkText_singletons by assumption. apply split_ws_nonempty.
  - intros E. assert (Hl : length (chunkText text maxTokens) = 0)
      by (rewrite E; reflexivity).
    rewrite chunkText_length in Hl by lia.
    pose proof (split_ws_length_pos text).
    pose proof (ceil_div_pos (length (split_ws text)) (Z.to_nat maxTokens)
                  ltac:(lia) ltac:(lia)).
    lia.
Qed.

(** A property of the words that carries over to the chunks, for any
    maximum size: every chunk is a non-empty group of words joined by single
    spaces. *)
Lemma chunk_loop_Forall (W P : jsstring -> Prop) (maxTokens : Z) :
  (forall g, g <> [] -> Forall W g -> P (join space g)) ->
  forall words chunks cur,
    Forall W words -> Forall W cur -> Forall P chunks ->
    Forall P (fst (chunk_loop maxTokens words chunks cur)) /\
    Forall W (snd (chunk_loop maxTokens words chunks cur)).
Proof.
  intros HP. induction words as [|w ws IH]; intros chunks cur Hw Hc Hch.
  - simpl. split; assumption.
  - inversion Hw; subst. simpl.
    assert (Hcur : Forall W (cur ++ [w]))
      by (apply Forall_app; split; [assumption | constructor; auto]).
    destruct (maxTokens <=? _)%Z.
    + apply IH; [assumption | constructor |].
      apply Forall_app. split; [assumption|].
      constructor; [|constructor].
      apply HP; [|assumption]. destruct cur; discriminate.
    + apply IH; assumption.
Qed.

Lemma chunkText_Forall (W P : jsstring -> Prop) (text : jsstring)
    (maxTokens : Z) :
  (forall g, g <> [] -> Forall W g -> P (join space g)) ->
  Forall W (split_ws text) ->
  Forall P (chunkText text maxTokens).
Proof.
  intros HP Hw. unfold chunkText.
  destruct (chunk_loop_Forall W P maxTokens HP (split_ws text) [] []
              Hw (Forall_nil _) (Forall_nil _)) as [H1 H2].
  destruct (chunk_loop maxTokens (split_ws text) [] []) as [chunks cur].
  simpl in H1, H2.
  destruct cur as [|c cur']; [exact H1|].
  change (0 <? length (c :: cur')) with true. cbv iota.
  apply Forall_app. split; [assumption|].
  constructor; [|constructor]. apply HP; [discriminate | assumption].
Qed.

Lemma join_single_spaces (g : list jsstring) :
  Forall space_free g ->
  Forall (fun u => is_space u = true -> u = 32%N) (join space g).
Proof.
  induction g as [|w rest IH]; intros Hg; [constructor|].
  inversion Hg as [|? ? Hw Hrest]; subst.
  assert (Hfree : Forall (fun u => is_space u = true -> u = 32%N) w).
  { eapply Forall_impl; [|exact Hw]. simpl. intros u Hu Hs. congruence. }
  destruct rest as [|w2 rest']; [exact Hfree|].
  rewrite join_cons. apply Forall_app. split; [exact Hfree|].
  apply Forall_app. split; [repeat constructor | apply IH; assumption].
Qed.

(** X5: Whatever white space separates the words of the text (tabs, line
    breaks, runs of blanks), the only white-space character left in a chunk
    is the single space U+0020 put in by [join]. *)
Theorem chunkText_single_spaces (text : jsstring) (maxTokens : Z)
    (chunk : jsstring) (u : code_unit) :
  In chunk (chunkText text maxTokens) ->
  In u chunk -> is_space u = true -> u = 32%N.
Proof.
  intros Hc Hu Hs.
  pose proof (chunkText_Forall space_free
                (Forall (fun u => is_space u = true -> u = 32%N))
                text maxTokens
                (fun g _ Hg => join_single_spaces g Hg)
                (split_ws_space_free text)) as H.
  rewrite Forall_forall in H. specialize (H chunk Hc).
  rewrite Forall_forall in H. exact (H u Hu Hs).
Qed.

Lemma chunkText_single_spaces_witness :
  In (lit "a b") (chunkText [97; 9; 10; 98; 13; 99]%N 2) /\
  In 32%N (lit "a b") /\ is_space 32%N = true /\ 32%N = 32%N.
Proof.
  assert (H1 : In (lit "a b") (chunkText [97; 9; 10; 98; 13; 99]%N 2))
    by (vm_compute; left; reflexivity).
  assert (H2 : In 32%N (lit "a b")) by (vm_compute; right; left; reflexivity).
  split; [exact H1|]. split; [exact H2|]. split; [reflexivity|].
  exact (chunkText_single_spaces [97; 9; 10; 98; 13; 99]%N 2 (lit "a b") 32%N
           H1 H2 eq_refl).
Defined.

Lemma split_ws_head_nonempty (s : jsstring) :
  s <> [] -> starts_with_space s = false -> hd [] (split_ws s) <> [].
Proof.
  destruct s as [|c s']; [congruence|]. simpl. intros _ Hc. rewrite Hc.
  destruct (split_ws s'); simpl; discriminate.
Qed.

Lemma split_ws_last_nonempty (s : jsstring) :
  s <> [] -> ends_with_space s = false -> last (split_ws s) [] <> [].
Proof.
  induction s as [|c s' IH]; [congruence|]. intros _ He.
  destruct s' as [|d s''].
  - simpl in He |- *. rewrite He. simpl. discriminate.
  - assert (He' : ends_with_space (d :: s'') = false) by exact He.
    specialize (IH ltac:(discriminate) He').
    pose proof (split_ws_nonempty (d :: s'')) as Hne.
    remember (d :: s'') as t eqn:Et. clear Et He He'.
    cbn [split_ws]. destruct (is_space c).
    + destruct (starts_with_space t); [exact IH|].
      destruct (split_ws t) as [|x xs]; [congruence|]. exact IH.
    + destruct (split_ws t) as [|x xs]; [congruence|].
      destruct xs as [|y ys]; [simpl; discriminate | exact IH].
Qed.

Lemma inner_last_nonempty (ws : list jsstring) :
  inner_nonempty ws -> (ws <> [] -> last ws [] <> []) ->
  Forall (fun w => w <> []) ws.
Proof.
  induction ws as [|w rest IH]; intros Hi Hl; [constructor|].
  destruct rest as [|w2 rest'].
  - constructor; [|constructor]. apply Hl. discriminate.
  - simpl in Hi. destruct Hi as [Hw Hi]. constructor; [exact Hw|].
    apply IH; [exact Hi|]. intros _. apply Hl. discriminate.
Qed.

Lemma split_ws_words_nonempty (s : jsstring) :
  s <> [] -> starts_with_space s = false -> ends_with_space s = false ->
  Forall (fun w => w <> []) (split_ws s).
Proof.
  intros Hne Hs He.
  pose proof (split_ws_head_nonempty s Hne Hs) as Hh.
  pose proof (split_ws_last_nonempty s Hne He) as Hl.
  pose proof (split_ws_inner s) as Hi.
  destruct (split_ws s) as [|w rest]; [constructor|].
  simpl in Hh, Hi. constructor; [exact Hh|].
  apply inner_last_nonempty; [exact Hi|].
  intros Hr. destruct rest; [congruence | exact Hl].
Qed.

Lemma join_nonempty (g : list jsstring) :
  g <> [] -> Forall (fun w => w <> []) g -> join space g <> [].
Proof.
  destruct g as [|w rest]; [congruence|]. intros _ Hg.
  inversion Hg; subst. destruct rest; simpl; [assumption|].
  destruct w; [congruence | discriminate].
Qed.

(** X6: For a non-empty text that neither starts nor ends with white space, no
    chunk is the empty string, whatever the maximum size. *)
Theorem chunkText_trimmed_text (text : jsstring) (maxTokens : Z) :
  text <> [] ->
  starts_with_space text = false ->
  ends_with_space text = false ->
  Forall (fun chunk => chunk <> []) (chunkText text maxTokens).
Proof.
  intros Hne Hs He.
  apply (chunkText_Forall (fun w => w <> []) (fun c => c <> [])).
  - apply join_nonempty.
  - apply split_ws_words_nonempty; assumption.
Qed.

Lemma chunkText_trimmed_text_witness :
  lit "a b c" <> [] /\
  Forall (fun chunk => chunk <> []) (chunkText (lit "a b c") 2).
Proof.
  split; [discriminate|].
  apply (chunkText_trimmed_text (lit "a b c") 2);
    [discriminate | reflexivity | reflexivity].
Defined.

(** ** Ingestion: further properties *)

Lemma embed_rows_content (env : Env) (id : nat) (chunks : list jsstring) :
  forall i k, Forall (fun row => In (content row) chunks)
                (embed_rows env id i chunks k).
Proof.
  induction chunks as [|c rest IH]; intros i k; simpl; [constructor|].
  destruct (embedded env i c).
  - constructor; [left; reflexivity|].
    eapply Forall_impl; [|apply IH]. simpl. intros row H. right. exact H.
  - eapply Forall_impl; [|apply IH]. simpl. intros row H. right. exact H.
Qed.

(** X7: When the download fails the run answers with status 500 and the
    message of the storage error after a fixed prefix; the store is left as
    it was and no other collaborator is called. *)
Theorem download_failure_aborts (env : Env) (req : FileRequest) (w : World)
    (message : jsstring) :
  env_download env (fileUrl req) = DownloadError message ->
  snd (process_file env req w) =
    {| status := 500;
       body := ErrorBody (lit "Failed to download file: " ++ message) |} /\
  store (fst (process_file env req w)) = store w /\
  trace (fst (process_file env req w)) =
    trace w ++ [EvDownload (fileUrl req)].
Proof.
  intros Hd. rewrite process_file_run, Hd. repeat split; reflexivity.
Qed.

Lemma download_failure_aborts_witness :
  let env := {| GEMINI_API_KEY := Some (lit "secret");
                env_download := fun _ => DownloadError (lit "Object not found");
                env_insert_document := DocInserted 7 100;
                env_embed := fun _ _ => EmbedNotOk;
                env_insert_embeddings := None;
                env_match_documents := fun _ => RpcData None;
                env_select_documents_fails := false;
                env_generate := fun _ => GenNotOk |} in
  snd (process_file env sample_request empty_world) =
    {| status := 500;
       body := ErrorBody (lit "Failed to download file: Object not found") |} /\
  store (fst (process_file env sample_request empty_world)) =
    store empty_world /\
  trace (fst (process_file env sample_request empty_world)) =
    trace empty_world ++ [EvDownload (fileUrl sample_request)].
Proof.
  intros env.
  exact (download_failure_aborts env sample_request empty_world
           (lit "Object not found") eq_refl).
Defined.

(** X8: When the file is downloaded but the insert of the Document record
    fails, the run answers with status 500 and the message of the database
    error after a fixed prefix; the store is left as it was, and neither the
    embedding service nor the embeddings table is called. *)
Theorem document_insert_failure_aborts (env : Env) (req : FileRequest)
    (w : World) (fileData : Blob) (message : jsstring) :
  env_download env (fileUrl req) = DownloadData fileData ->
  env_insert_document env = DocInsertError message ->
  snd (process_file env req w) =
    {| status := 500;
       body := ErrorBody (lit "Failed to store document: " ++ message) |} /\
  store (fst (process_file env req w)) = store w /\
  trace (fst (process_file env req w)) =
    trace w ++
    [EvDownload (fileUrl req);
     EvInsertDocument (fileName req) (fileType req)
       (extract_text (fileType req) fileData) (fileUrl req)].
Proof.
  intros Hd Hi. rewrite process_file_run, Hd, Hi. repeat split; reflexivity.
Qed.

Lemma document_insert_failure_aborts_witness :
  let env := {| GEMINI_API_KEY := Some (lit "secret");
                env_download :=
                  fun _ => DownloadData {| blob_text := lit "a b" |};
                env_insert_document := DocInsertError (lit "permission denied");
                env_embed := fun _ _ => EmbedNotOk;
                env_insert_embeddings := None;
                env_match_documents := fun _ => RpcData None;
                env_select_documents_fails := false;
                env_generate := fun _ => GenNotOk |} in
  snd (process_file env sample_request empty_world) =
    {| status := 500;
       body := ErrorBody
                 (lit "Failed to store document: permission denied") |} /\
  store (fst (process_file env sample_request empty_world)) =
    store empty_world /\
  trace (fst (process_file env sample_request empty_world)) =
    trace empty_world ++
    [EvDownload (fileUrl sample_request);
     EvInsertDocument (fileName sample_request) (fileType sample_request)
       (lit "a b") (fileUrl sample_request)].
Proof.
  intros env.
  exact (document_insert_failure_aborts env sample_request empty_world
           {| blob_text := lit "a b" |} (lit "permission denied")
           eq_refl eq_refl).
Defined.

(** X9: The API key is looked up only after the Document record is stored: with
    the key unset or empty, the run answers with status 500 and the message
    [Gemini API key not configured], the Document record is already in the
    store, and no embedding call is made. *)
Theorem missing_key_found_after_insert (env : Env) (req : FileRequest)
    (w : World) (fileData : Blob) (id created_at : nat) :
  env_download env (fileUrl req) = DownloadData fileData ->
  env_insert_document env = DocInserted id created_at ->
  GEMINI_API_KEY env = None \/ GEMINI_API_KEY env = Some [] ->
  snd (process_file env req w) =
    {| status := 500;
       body := ErrorBody (lit "Gemini API key not configured") |} /\
  documents (store (fst (process_file env req w))) =
    documents (store w) ++ [document_of req fileData id created_at] /\
  embeddings (store (fst (process_file env req w))) = embeddings (store w) /\
  trace (fst (process_file env req w)) =
    trace w ++
    [EvDownload (fileUrl req);
     EvInsertDocument (fileName req) (fileType req)
       (extract_text (fileType req) fileData) (fileUrl req)].
Proof.
  intros Hd Hi Hk. rewrite process_file_run, Hd, Hi.
  assert (Hc : configured (GEMINI_API_KEY env) = false)
    by (destruct Hk as [-> | ->]; reflexivity).
  cbv zeta. rewrite Hc. repeat split; reflexivity.
Qed.

Lemma missing_key_found_after_insert_witness :
  let env := {| GEMINI_API_KEY := None;
                env_download :=
                  fun _ => DownloadData {| blob_text := lit "a b" |};
                env_insert_document := DocInserted 7 100;
                env_embed := fun _ _ => EmbedValues (Some [1 # 2]);
                env_insert_embeddings := None;
                env_match_documents := fun _ => RpcData None;
                env_select_documents_fails := false;
                env_generate := fun _ => GenNotOk |} in
  snd (process_file env sample_request empty_world) =
    {| status := 500;
       body := ErrorBody (lit "Gemini API key not configured") |} /\
  documents (store (fst (process_file env sample_request empty_world))) =
    [document_of sample_request {| blob_text := lit "a b" |} 7 100].
Proof.
  intros env.
  destruct (missing_key_found_after_insert env sample_request empty_world
              {| blob_text := lit "a b" |} 7 100 eq_refl eq_refl
              (or_introl eq_refl)) as [Hr [Hd _]].
  split; [exact Hr | exact Hd].
Defined.

(** X10: A run that answers with status 200 has downloaded the file and stored
    its Document record; the response carries the identifier the database
    gave that record, and [chunksProcessed] is the number of embedding
    records the run added to the store.  That number is at most the number
    of chunks, and every added record belongs to the document and holds one
    of its chunks. *)
Theorem success_report (env : Env) (req : FileRequest) (w : World) :
  status (snd (process_file env req w)) = 200 ->
  exists fileData id created_at rows,
    env_download env (fileUrl req) = DownloadData fileData /\
    env_insert_document env = DocInserted id created_at /\
    snd (process_file env req w) =
      {| status := 200; body := Processed id (length rows) |} /\
    documents (store (fst (process_file env req w))) =
      documents (store w) ++ [document_of req fileData id created_at] /\
    embeddings (store (fst (process_file env req w))) =
      embeddings (store w) ++ rows /\
    length rows <=
      length (chunkText (extract_text (fileType req) fileData) 500) /\
    Forall (fun row =>
              document_id row = id /\
              In (content row)
                 (chunkText (extract_text (fileType req) fileData) 500))
           rows.
Proof.
  rewrite process_file_run.
  destruct (env_download env (fileUrl req)) as [msg|fileData]; [discriminate|].
  cbv zeta.
  destruct (env_insert_document env) as [msg|id created_at]; [discriminate|].
  destruct (configured (GEMINI_API_KEY env)); [|discriminate].
  set (chunks := chunkText (extract_text (fileType req) fileData) 500).
  assert (Hrows : Forall (fun row => document_id row = id /\
                                     In (content row) chunks)
                    (embed_rows env id 0 chunks 0)).
  { apply Forall_forall. intros row Hin. split.
    - pose proof (embed_rows_document env id chunks 0 0) as H.
      rewrite Forall_forall in H. exact (H row Hin).
    - pose proof (embed_rows_content env id chunks 0 0) as H.
      rewrite Forall_forall in H. exact (H row Hin). }
  pose proof (embed_rows_length_le env id chunks 0 0) as Hle.
  destruct (0 <? length (embed_rows env id 0 chunks 0)) eqn:E.
  - destruct (env_insert_embeddings env); [discriminate|]. intros _.
    exists fileData, id, created_at, (embed_rows env id 0 chunks 0).
    repeat split; try reflexivity; assumption.
  - intros _. exists fileData, id, created_at, [].
    simpl. rewrite app_nil_r.
    repeat split; try reflexivity; [lia | constructor].
Qed.

Lemma success_report_witness :
  let env := sample_env (lit "a b c") (fun _ => true) None GenNotOk in
  status (snd (process_file env sample_request empty_world)) = 200 /\
  exists fileData id created_at rows,
    env_download env (fileUrl sample_request) = DownloadData fileData /\
    env_insert_document env = DocInserted id created_at /\
    snd (process_file env sample_request empty_world) =
      {| status := 200; body := Processed id (length rows) |} /\
    documents (store (fst (process_file env sample_request empty_world))) =
      documents (store empty_world) ++
      [document_of sample_request fileData id created_at] /\
    embeddings (store (fst (process_file env sample_request empty_world))) =
      embeddings (store empty_world) ++ rows /\
    length rows <=
      length (chunkText
                (extract_text (fileType sample_request) fileData) 500) /\
    Forall (fun row =>
              document_id row = id /\
              In (content row)
                 (chunkText
                    (extract_text (fileType sample_request) fileData) 500))
           rows.
Proof.
  intros env. split; [reflexivity|].
  exact (success_report env sample_request empty_world eq_refl).
Defined.

(** X11: A run only appends to the two tables: whatever the collaborators
    answer, the rows present before the run are all still there, in place,
    at most one Document record is added, and the calls already made stay
    at the front of the trace. *)
Theorem store_only_grows (env : Env) (req : FileRequest) (w : World) :
  exists docs rows calls,
    documents (store (fst (process_file env req w))) =
      documents (store w) ++ docs /\
    length docs <= 1 /\
    embeddings (store (fst (process_file env req w))) =
      embeddings (store w) ++ rows /\
    Forall (fun row => Forall (fun doc => document_id row = doc_id doc) docs)
      rows /\
    trace (fst (process_file env req w)) = trace w ++ calls.
Proof.
  rewrite process_file_run.
  destruct (env_download env (fileUrl req)) as [msg|fileData].
  { exists [], [], [EvDownload (fileUrl req)]. simpl. rewrite !app_nil_r.
    repeat split; try reflexivity; try lia; constructor. }
  cbv zeta.
  set (called := [EvDownload (fileUrl req);
                  EvInsertDocument (fileName req) (fileType req)
                    (extract_text (fileType req) fileData) (fileUrl req)]).
  destruct (env_insert_document env) as [msg|id created_at].
  { exists [], [], called. simpl. rewrite !app_nil_r.
    repeat split; try reflexivity; try lia; constructor. }
  set (doc := document_of req fileData id created_at).
  set (chunks := chunkText (extract_text (fileType req) fileData) 500).
  set (rows := embed_rows env id 0 chunks 0).
  destruct (configured (GEMINI_API_KEY env)).
  - destruct (0 <? length rows).
    + destruct (env_insert_embeddings env).
      * exists [doc], [],
          (called ++ map EvEmbed chunks ++ [EvInsertEmbeddings rows]).
        simpl. rewrite <- !app_assoc, !app_nil_r.
        repeat split; try reflexivity; try lia; constructor.
      * exists [doc], rows,
          (called ++ map EvEmbed chunks ++ [EvInsertEmbeddings rows]).
        simpl. rewrite <- !app_assoc.
        repeat split; try reflexivity; try lia.
        eapply Forall_impl; [|apply embed_rows_document].
        simpl. intros row Hrow. constructor; [exact Hrow | constructor].
    + exists [doc], [], (called ++ map EvEmbed chunks).
      simpl. rewrite <- !app_assoc, !app_nil_r.
      repeat split; try reflexivity; try lia; constructor.
  - exists [doc], [], called. simpl. rewrite !app_nil_r.
    repeat split; try reflexivity; try lia; constructor.
Qed.

(** X12: Once the Document record is stored and the API key is set, the run
    makes exactly one embedding call per chunk, in chunk order, whatever
    the calls answer: a failed call is neither retried nor does it stop the
    loop.  After the calls comes at most one insert into the embeddings
    table. *)
Theorem one_embedding_call_per_chunk (env : Env) (req : FileRequest)
    (w : World) (fileData : Blob) (id created_at : nat) :
  env_download env (fileUrl req) = DownloadData fileData ->
  env_insert_document env = DocInserted id created_at ->
  configured (GEMINI_API_KEY env) = true ->
  let text := extract_text (fileType req) fileData in
  exists tail,
    trace (fst (process_file env req w)) =
      trace w ++
      [EvDownload (fileUrl req);
       EvInsertDocument (fileName req) (fileType req) text (fileUrl req)] ++
      map EvEmbed (chunkText text 500) ++ tail /\
    (tail = [] \/ exists batch, batch <> [] /\ tail = [EvInsertEmbeddings batch]).
Proof.
  intros Hd Hi Hk text. rewrite process_file_run, Hd, Hi, Hk. cbv zeta.
  fold text. set (chunks := chunkText text 500).
  destruct (0 <? length (embed_rows env id 0 chunks 0)) eqn:E.
  - assert (Hne : embed_rows env id 0 chunks 0 <> []).
    { intros Hn. rewrite Hn in E. discriminate. }
    destruct (env_insert_embeddings env);
      (exists [EvInsertEmbeddings (embed_rows env id 0 chunks 0)];
       split; [simpl; rewrite <- !app_assoc; reflexivity|];
       right; eexists; split; [exact Hne | reflexivity]).
  - exists []. split; [|left; reflexivity].
    simpl. rewrite <- !app_assoc, app_nil_r. reflexivity.
Qed.

Lemma one_embedding_call_per_chunk_witness :
  let env := sample_env (lit "a b c") (fun _ => false) None GenNotOk in
  exists tail,
    trace (fst (process_file env sample_request empty_world)) =
      trace empty_world ++
      [EvDownload (fileUrl sample_request);
       EvInsertDocument (fileName sample_request) (fileType sample_request)
         (extract_text (fileType sample_request)
            {| blob_text := lit "a b c" |})
         (fileUrl sample_request)] ++
      map EvEmbed
        (chunkText (extract_text (fileType sample_request)
                      {| blob_text := lit "a b c" |}) 500) ++ tail /\
    (tail = [] \/
     exists batch, batch <> [] /\ tail = [EvInsertEmbeddings batch]).
Proof.
  intros env.
  exact (one_embedding_call_per_chunk env sample_request empty_world
           {| blob_text := lit "a b c" |} 7 100 eq_refl eq_refl eq_refl).
Defined.

(** X13: Nothing is deduplicated: ingesting the same file twice stores two
    Document records with the same name, type, content and storage path,
    one after the other, each under the identifier the database gave it. *)
Theorem reingestion_adds_a_second_document (env1 env2 : Env)
    (req : FileRequest) (w : World) (fileData : Blob)
    (id1 t1 id2 t2 : nat) :
  env_download env1 (fileUrl req) = DownloadData fileData ->
  env_download env2 (fileUrl req) = DownloadData fileData ->
  env_insert_document env1 = DocInserted id1 t1 ->
  env_insert_document env2 = DocInserted id2 t2 ->
  let w1 := fst (process_file env1 req w) in
  let w2 := fst (process_file env2 req w1) in
  documents (store w2) =
    documents (store w) ++
    [document_of req fileData id1 t1; document_of req fileData id2 t2].
Proof.
  intros Hd1 Hd2 Hi1 Hi2 w1 w2.
  assert (Hdocs : forall env w0 id t,
            env_download env (fileUrl req) = DownloadData fileData ->
            env_insert_document env = DocInserted id t ->
            documents (store (fst (process_file env req w0))) =
            documents (store w0) ++ [document_of req fileData id t]).
  { intros env w0 id t Hd Hi. rewrite process_file_run, Hd, Hi. cbv zeta.
    destruct (configured (GEMINI_API_KEY env)); [|reflexivity].
    destruct (0 <? _); [|reflexivity].
    destruct (env_insert_embeddings env); reflexivity. }
  subst w2. rewrite (Hdocs env2 w1 id2 t2 Hd2 Hi2).
  subst w1. rewrite (Hdocs env1 w id1 t1 Hd1 Hi1).
  rewrite <- app_assoc. reflexivity.
Qed.

Lemma reingestion_adds_a_second_document_witness :
  let env1 := sample_env (lit "a b c") (fun _ => true) None GenNotOk in
  let env2 := {| GEMINI_API_KEY := Some (lit "secret");
                 env_download :=
                   fun _ => DownloadData {| blob_text := lit "a b c" |};
                 env_insert_document := DocInserted 8 101;
                 env_embed := fun _ _ => EmbedValues (Some [1 # 2; 1 # 4]);
                 env_insert_embeddings := None;
                 env_match_documents := fun _ => RpcData None;
                 env_select_documents_fails := false;
                 env_generate := fun _ => GenNotOk |} in
  documents
    (store (fst (process_file env2 sample_request
                   (fst (process_file env1 sample_request empty_world))))) =
  [document_of sample_request {| blob_text := lit "a b c" |} 7 100;
   document_of sample_request {| blob_text := lit "a b c" |} 8 101].
Proof.
  intros env1 env2.
  exact (reingestion_adds_a_second_document env1 env2 sample_request
           empty_world {| blob_text := lit "a b c" |} 7 100 8 101
           eq_refl eq_refl eq_refl eq_refl).
Defined.

(** ** Retrieval: further properties *)

(** X14: Retrieval only reads: whatever the collaborators answer, the store
    after a run is the store before it. *)
Theorem retrieval_reads_only (env : Env) (question : jsstring) (w : World) :
  store (fst (query_rag env question w)) = store w.
Proof.
  rewrite query_rag_run.
  destruct (configured (GEMINI_API_KEY env)); [|reflexivity].
  destruct (env_embed env 0 question) as [msg| |[v|]]; try reflexivity.
  cbv zeta.
  destruct (env_match_documents env v); reflexivity.
Qed.

(** X15: With the API key unset or empty the run answers with status 500 and
    the message [Gemini API key not configured] before calling any
    collaborator. *)
Theorem retrieval_without_key (env : Env) (question : jsstring) (w : World) :
  GEMINI_API_KEY env = None \/ GEMINI_API_KEY env = Some [] ->
  query_rag env question w =
    (w, {| status := 500;
           body := ErrorBody (lit "Gemini API key not configured") |}).
Proof.
  intros Hk. rewrite query_rag_run.
  destruct Hk as [-> | ->]; reflexivity.
Qed.

Lemma retrieval_without_key_witness :
  let env := {| GEMINI_API_KEY := Some [];
                env_download := fun _ => DownloadError [];
                env_insert_document := DocInserted 7 100;
                env_embed := fun _ _ => EmbedValues (Some [1 # 2]);
                env_insert_embeddings := None;
                env_match_documents := fun _ => RpcData None;
                env_select_documents_fails := false;
                env_generate := fun _ => GenText (Some (lit "ok")) |} in
  query_rag env (lit "q") empty_world =
    (empty_world,
     {| status := 500;
        body := ErrorBody (lit "Gemini API key not configured") |}).
Proof.
  intros env.
  exact (retrieval_without_key env (lit "q") empty_world (or_intror eq_refl)).
Defined.

(** X16: When the question cannot be embedded (the call throws, the response is
    not [ok], or it carries no vector) the run answers with status 500, and
    the embedding call is the only call it made: no search, no document
    lookup and no generation. *)
Theorem question_embedding_failure_is_fatal (env : Env)
    (question : jsstring) (w : World) :
  configured (GEMINI_API_KEY env) = true ->
  embed_ok env 0 question = false ->
  status (snd (query_rag env question w)) = 500 /\
  trace (fst (query_rag env question w)) = trace w ++ [EvEmbed question] /\
  body (snd (query_rag env question w)) =
    ErrorBody
      match env_embed env 0 question with
      | EmbedThrows message => message
      | EmbedNotOk => lit "Failed to generate question embedding"
      | EmbedValues _ => lit "No embedding generated for question"
      end.
Proof.
  intros Hk Hf. rewrite query_rag_run, Hk.
  unfold embed_ok, embedded in Hf.
  destruct (env_embed env 0 question) as [msg| |[v|]];
    try discriminate; repeat split; reflexivity.
Qed.

Lemma question_embedding_failure_is_fatal_witness :
  let env := sample_env [] (fun _ => false) None (GenText (Some (lit "ok"))) in
  status (snd (query_rag env (lit "q") empty_world)) = 500 /\
  trace (fst (query_rag env (lit "q") empty_world)) =
    trace empty_world ++ [EvEmbed (lit "q")] /\
  body (snd (query_rag env (lit "q") empty_world)) =
    ErrorBody (lit "Failed to generate question embedding").
Proof.
  intros env.
  exact (question_embedding_failure_is_fatal env (lit "q") empty_world
           eq_refl eq_refl).
Defined.

(** X17: When the similarity search answers with matching chunks, the context
    of the prompt is their contents in the order the search returned them,
    joined by a blank line; the documents table is not consulted, and the
    generation call is the last call of the run. *)
Theorem search_hits_make_the_context (env : Env) (question : jsstring)
    (w : World) (questionVector : Vector) (hit : jsstring)
    (hits : list jsstring) :
  configured (GEMINI_API_KEY env) = true ->
  env_embed env 0 question = EmbedValues (Some questionVector) ->
  env_match_documents env questionVector = RpcData (Some (hit :: hits)) ->
  trace (fst (query_rag env question w)) =
    trace w ++
    [EvEmbed question;
     EvMatchDocuments questionVector (7 # 10) 5;
     EvGenerate (build_prompt (join (nl ++ nl) (hit :: hits)) question)].
Proof.
  intros Hk He Hs. rewrite query_rag_run, Hk, He. cbv zeta. rewrite Hs.
  reflexivity.
Qed.

Lemma search_hits_make_the_context_witness :
  let env := {| GEMINI_API_KEY := Some (lit "secret");
                env_download := fun _ => DownloadError [];
                env_insert_document := DocInserted 7 100;
                env_embed := fun _ _ => EmbedValues (Some [1 # 2]);
                env_insert_embeddings := None;
                env_match_documents :=
                  fun _ => RpcData (Some [lit "c1"; lit "c2"]);
                env_select_documents_fails := false;
                env_generate := fun _ => GenText (Some (lit "ok")) |} in
  trace (fst (query_rag env (lit "q") empty_world)) =
    trace empty_world ++
    [EvEmbed (lit "q");
     EvMatchDocuments [1 # 2] (7 # 10) 5;
     EvGenerate
       (build_prompt (join (nl ++ nl) [lit "c1"; lit "c2"]) (lit "q"))].
Proof.
  intros env.
  exact (search_hits_make_the_context env (lit "q") empty_world [1 # 2]
           (lit "c1") [lit "c2"] eq_refl eq_refl eq_refl).
Defined.

(** X18: When the similarity search succeeds without a match (no data, or an
    empty list) the generation service is still called, with the empty
    context, and the documents table is not consulted; the answer of the run
    is then decided by the generation call alone. *)
Theorem no_hit_means_empty_context (env : Env) (question : jsstring)
    (w : World) (questionVector : Vector)
    (similarChunks : option (list jsstring)) :
  configured (GEMINI_API_KEY env) = true ->
  env_embed env 0 question = EmbedValues (Some questionVector) ->
  env_match_documents env questionVector = RpcData similarChunks ->
  similarChunks = None \/ similarChunks = Some [] ->
  trace (fst (query_rag env question w)) =
    trace w ++
    [EvEmbed question;
     EvMatchDocuments questionVector (7 # 10) 5;
     EvGenerate (build_prompt [] question)] /\
  (forall text,
     env_generate env (build_prompt [] question) = GenText text ->
     status (snd (query_rag env question w)) = 200).
Proof.
  intros Hk He Hs Hnone. rewrite query_rag_run, Hk, He. cbv zeta. rewrite Hs.
  assert (Hc : context_of similarChunks = [])
    by (destruct Hnone as [-> | ->]; reflexivity).
  rewrite Hc. split; [reflexivity|].
  intros text Hg. simpl. rewrite Hg. reflexivity.
Qed.

Lemma no_hit_means_empty_context_witness :
  let env := {| GEMINI_API_KEY := Some (lit "secret");
                env_download := fun _ => DownloadError [];
                env_insert_document := DocInserted 7 100;
                env_embed := fun _ _ => EmbedValues (Some [1 # 2]);
                env_insert_embeddings := None;
                env_match_documents := fun _ => RpcData (Some []);
                env_select_documents_fails := false;
                env_generate := fun _ => GenText (Some (lit "no data")) |} in
  trace (fst (query_rag env (lit "q") empty_world)) =
    trace empty_world ++
    [EvEmbed (lit "q");
     EvMatchDocuments [1 # 2] (7 # 10) 5;
     EvGenerate (build_prompt [] (lit "q"))] /\
  status (snd (query_rag env (lit "q") empty_world)) = 200.
Proof.
  intros env.
  destruct (no_hit_means_empty_context env (lit "q") empty_world [1 # 2]
              (Some []) eq_refl eq_refl eq_refl (or_intror eq_refl))
    as [Ht Hs].
  split; [exact Ht | exact (Hs (Some (lit "no data")) eq_refl)].
Defined.

(** X19: A run answers with status 200 only after a generation call that
    returned a body, made as the last call of the run.  The answer is then
    the generated text when there is one and it is not empty, and a fixed
    sentence otherwise: the answer of a successful run is never the empty
    string. *)
Theorem answer_of_a_successful_run (env : Env) (question : jsstring)
    (w : World) :
  status (snd (query_rag env question w)) = 200 ->
  exists calls prompt text answer,
    trace (fst (query_rag env question w)) =
      trace w ++ calls ++ [EvGenerate prompt] /\
    env_generate env prompt = GenText text /\
    body (snd (query_rag env question w)) = Answer answer /\
    answer <> [] /\
    (forall c t, text = Some (c :: t) -> answer = c :: t) /\
    (text = None \/ text = Some [] ->
     answer = lit "Sorry, I could not generate a response.").
Proof.
  rewrite query_rag_run.
  destruct (configured (GEMINI_API_KEY env)); [|discriminate].
  destruct (env_embed env 0 question) as [msg| |[v|]]; try discriminate.
  cbv zeta.
  destruct (match env_match_documents env v with
            | RpcError _ => _
            | RpcData similarChunks => _
            end) as [ctx lookups].
  set (prompt := build_prompt ctx question).
  destruct (env_generate env prompt) as [thrown| |text] eqn:Eg;
    try discriminate.
  intros _.
  exists ([EvEmbed question] ++ lookups), prompt, text.
  eexists. simpl. rewrite <- ?app_assoc.
  split; [reflexivity|]. split; [exact Eg|]. split; [reflexivity|].
  destruct text as [[|c t]|]; (split; [discriminate|]); split;
    try (intros c' t' H; congruence);
    try (intros [H|H]; congruence);
    try (intros _; reflexivity).
Qed.

Lemma answer_of_a_successful_run_witness :
  let env := sample_env [] (fun _ => true) None (GenText (Some [])) in
  status (snd (query_rag env (lit "q") empty_world)) = 200 /\
  body (snd (query_rag env (lit "q") empty_world)) =
    Answer (lit "Sorry, I could not generate a response.").
Proof.
  intros env. split; [reflexivity|].
  destruct (answer_of_a_successful_run env (lit "q") empty_world eq_refl)
    as [calls [prompt [text [answer [_ [Hg [Hb [_ [_ Hempty]]]]]]]]].
  rewrite Hb. f_equal. apply Hempty. right.
  change (env_generate env prompt) with (GenText (Some [])) in Hg.
  congruence.
Defined.

(** X20: Ingestion feeds the fallback of retrieval.  Once a run of
    [process-file] has stored the Document record of a file in an empty
    documents table (whether or not that run went on to succeed), a
    question asked while the similarity search is unavailable is answered
    from a prompt whose context is the whole extracted text of that file. *)
Theorem first_document_is_the_fallback_context (env env' : Env)
    (req : FileRequest) (w : World) (fileData : Blob) (id created_at : nat)
    (question : jsstring) (questionVector : Vector) (message : jsstring) :
  documents (store w) = [] ->
  env_download env (fileUrl req) = DownloadData fileData ->
  env_insert_document env = DocInserted id created_at ->
  configured (GEMINI_API_KEY env') = true ->
  env_embed env' 0 question = EmbedValues (Some questionVector) ->
  env_match_documents env' questionVector = RpcError message ->
  env_select_documents_fails env' = false ->
  let w1 := fst (process_file env req w) in
  trace (fst (query_rag env' question w1)) =
    trace w1 ++
    [EvEmbed question;
     EvMatchDocuments questionVector (7 # 10) 5;
     EvSelectDocuments 3;
     EvGenerate
       (build_prompt (extract_text (fileType req) fileData) question)].
Proof.
  intros Hempty Hd Hi Hk He Hs Hsel w1.
  assert (Hdocs : documents (store w1) =
                  [document_of req fileData id created_at]).
  { subst w1. rewrite process_file_run, Hd, Hi. cbv zeta.
    destruct (configured (GEMINI_API_KEY env));
      [destruct (0 <? _); [destruct (env_insert_embeddings env)|]|];
      simpl; rewrite Hempty; reflexivity. }
  rewrite query_rag_run, Hk, He. cbv zeta. rewrite Hs, Hsel, Hdocs.
  reflexivity.
Qed.

Lemma first_document_is_the_fallback_context_witness :
  let env := sample_env (lit "id,name 1,Vida") (fun _ => true)
               (Some (lit "timeout")) GenNotOk in
  let env' := sample_env [] (fun _ => true) None (GenText (Some (lit "ok"))) in
  let w1 := fst (process_file env sample_request empty_world) in
  trace (fst (query_rag env' (lit "q") w1)) =
    trace w1 ++
    [EvEmbed (lit "q");
     EvMatchDocuments [1 # 2; 1 # 4] (7 # 10) 5;
     EvSelectDocuments 3;
     EvGenerate (build_prompt (lit "id,name 1,Vida") (lit "q"))].
Proof.
  intros env env' w1.
  exact (first_document_is_the_fallback_context env env' sample_request
           empty_world {| blob_text := lit "id,name 1,Vida" |} 7 100
           (lit "q") [1 # 2; 1 # 4] (lit "function not found")
           eq_refl eq_refl eq_refl eq_refl eq_refl eq_refl eq_refl).
Defined.

(** ** The uploader: properties *)

Lemma jsstring_eqb_eq (a b : jsstring) : jsstring_eqb a b = true <-> a = b.
Proof.
  revert b. induction a as [|x a IH]; intros [|y b]; simpl;
    try (split; [discriminate | discriminate]); [tauto|].
  unfold code_unit_eqb. rewrite andb_true_iff, N.eqb_eq, IH.
  split; [intros [-> ->]; reflexivity | intros H; injection H; auto].
Qed.

Lemma jsstring_eqb_refl (a : jsstring) : jsstring_eqb a a = true.
Proof. apply jsstring_eqb_eq. reflexivity. Qed.

Lemma jsstring_eqb_neq (a b : jsstring) : a <> b -> jsstring_eqb a b = false.
Proof.
  intros H. destruct (jsstring_eqb a b) eqn:E; [|reflexivity].
  apply jsstring_eqb_eq in E. contradiction.
Qed.

Lemma includes_In (xs : list jsstring) (x : jsstring) :
  includes xs x = true <-> In x xs.
Proof.
  unfold includes. rewrite existsb_exists. split.
  - intros [y [Hy He]]. apply jsstring_eqb_eq in He. subst. exact Hy.
  - intros H. exists x. split; [exact H | apply jsstring_eqb_refl].
Qed.

Lemma validateFile_verdict_aux (file : File) :
  validateFile file = None <->
  In (file_type file) allowedTypes /\ (file_size file <= 52428800)%N.
Proof.
  unfold validateFile.
  change (50 * 1024 * 1024)%N with 52428800%N.
  destruct (includes allowedTypes (file_type file)) eqn:Ei; simpl.
  - apply includes_In in Ei.
    destruct (N.ltb_spec 52428800 (file_size file)) as [Hs|Hs]; split;
      try discriminate; try (intros [_ H]; lia); intros _; split; assumption.
  - split; [discriminate|]. intros [H _].
    apply (proj2 (includes_In allowedTypes (file_type file))) in H. congruence.
Qed.

(** X21: A file is accepted exactly when its type is one of the four allowed
    types and its size is at most 52428800 bytes (50 MiB); a file of 50 MiB
    exactly is accepted.  A file of another type is refused with the message
    about types, whatever its size; the message about the size is for files
    of an allowed type only. *)
Theorem validateFile_verdict (file : File) :
  (validateFile file = None <->
   In (file_type file) allowedTypes /\ (file_size file <= 52428800)%N) /\
  (validateFile file = Some (lit "Only PDF and CSV files are allowed") <->
   ~ In (file_type file) allowedTypes) /\
  (validateFile file = Some (lit "File size must be less than 50MB") <->
   In (file_type file) allowedTypes /\ (52428800 < file_size file)%N).
Proof.
  unfold validateFile.
  change (50 * 1024 * 1024)%N with 52428800%N.
  destruct (includes allowedTypes (file_type file)) eqn:Ei; simpl.
  - apply includes_In in Ei.
    destruct (N.ltb_spec 52428800 (file_size file)) as [Hs|Hs].
    + split; [|split]; split.
      * discriminate.
      * intros [_ H]. lia.
      * intros H. vm_compute in H. discriminate.
      * intros H. contradiction.
      * intros _. split; assumption.
      * reflexivity.
    + split; [|split]; split.
      * intros _. split; assumption.
      * reflexivity.
      * discriminate.
      * intros H. contradiction.
      * discriminate.
      * intros [_ H]. lia.
  - assert (Hn : ~ In (file_type file) allowedTypes).
    { intros H. apply includes_In in H. congruence. }
    split; [|split]; split.
    + discriminate.
    + intros [H _]. contradiction.
    + intros _. exact Hn.
    + reflexivity.
    + intros H. vm_compute in H. discriminate.
    + intros [H _]. contradiction.
Qed.

(** X22: Every file the uploader accepts is given to [process-file] with its
    browser type, and the handler takes the decoded bytes as its text, with
    one exception: a spreadsheet in the Office Open XML format passes the
    validation but matches no branch of the extraction, so its extracted
    text is the empty string. *)
Theorem accepted_file_extraction (file : File) (fileData : Blob) :
  validateFile file = None ->
  (file_type file <>
     lit "application/vnd.openxmlformats-officedocument.spreadsheetml.sheet" ->
   extract_text (file_type file) fileData = blob_text fileData) /\
  (file_type file =
     lit "application/vnd.openxmlformats-officedocument.spreadsheetml.sheet" ->
   extract_text (file_type file) fileData = []).
Proof.
  intros Hv. apply (proj1 (validateFile_verdict_aux file)) in Hv.
  destruct Hv as [Hin _]. split.
  - intros Hne. simpl in Hin.
    destruct Hin as [H|[H|[H|[H|[]]]]]; rewrite <- H in *;
      [reflexivity | reflexivity | reflexivity | congruence].
  - intros ->. reflexivity.
Qed.

Lemma accepted_file_extraction_witness :
  let sheet :=
    {| file_name := lit "plan.xlsx"; file_size := 1024;
       file_type :=
         lit "application/vnd.openxmlformats-officedocument.spreadsheetml.sheet"
    |} in
  validateFile sheet = None /\
  extract_text (file_type sheet) {| blob_text := lit "PK binary" |} = [].
Proof.
  intros sheet. split; [reflexivity|].
  exact (proj2 (accepted_file_extraction sheet {| blob_text := lit "PK binary" |}
                  eq_refl) eq_refl).
Defined.

Lemma new_entries_app (b : Browser) (xs ys : list File) :
  forall i, new_entries b i (xs ++ ys) =
            new_entries b i xs ++ new_entries b (i + length xs) ys.
Proof.
  induction xs as [|x xs IH]; intros i; simpl.
  - rewrite Nat.add_0_r. reflexivity.
  - rewrite IH, Nat.add_succ_r. reflexivity.
Qed.

Lemma settled_entries_app (b : Browser) (xs ys : list File) :
  forall i k,
    settled_entries b i k (xs ++ ys) =
    settled_entries b i k xs ++
    settled_entries b (i + length xs) (k + length (filter is_valid xs)) ys.
Proof.
  induction xs as [|x xs IH]; intros i k; simpl.
  - rewrite !Nat.add_0_r. reflexivity.
  - destruct (is_valid x); simpl; rewrite IH;
      rewrite ?Nat.add_succ_r; reflexivity.
Qed.

Lemma new_entries_ids (b : Browser) (xs : list File) :
  forall i, map uf_id (new_entries b i xs) =
            map (new_id b) (seq i (length xs)).
Proof.
  induction xs as [|x xs IH]; intros i; simpl; [reflexivity|].
  rewrite IH. reflexivity.
Qed.

Lemma settled_entries_ids (b : Browser) (xs : list File) :
  forall i k, map uf_id (settled_entries b i k xs) =
              map (new_id b) (seq i (length xs)).
Proof.
  induction xs as [|x xs IH]; intros i k; simpl; [reflexivity|].
  destruct (is_valid x); simpl; rewrite IH; [|reflexivity].
  unfold settled_entry. destruct (outcome b k x) as [[s p] m]. reflexivity.
Qed.

Lemma new_entries_names (b : Browser) (xs : list File) :
  forall i, map uf_name (new_entries b i xs) = map file_name xs.
Proof.
  induction xs as [|x xs IH]; intros i; simpl; [reflexivity|].
  rewrite IH. reflexivity.
Qed.

Lemma map_untouched (id : jsstring) (change : UploadedFile -> UploadedFile)
    (l : list UploadedFile) :
  ~ In id (map uf_id l) ->
  map (fun f => if jsstring_eqb (uf_id f) id then change f else f) l = l.
Proof.
  induction l as [|f l IH]; intros Hn; simpl; [reflexivity|].
  simpl in Hn. rewrite jsstring_eqb_neq by tauto.
  rewrite IH by tauto. reflexivity.
Qed.

Lemma find_by_name (name : jsstring) (pre post : list UploadedFile)
    (e : UploadedFile) :
  ~ In name (map uf_name pre) -> uf_name e = name ->
  find (fun f => jsstring_eqb (uf_name f) name) (pre ++ e :: post) = Some e.
Proof.
  intros Hn He. induction pre as [|f pre IH]; simpl.
  - rewrite He, jsstring_eqb_refl. reflexivity.
  - simpl in Hn. rewrite jsstring_eqb_neq by tauto. apply IH. tauto.
Qed.

(** The files after one turn of the loop: the entries that carry the
    identifier of the entry found by name are settled, from whatever state
    they were in, and the others are left alone. *)
Lemma upload_one_files (b : Browser) (newFiles : list UploadedFile)
    (k : nat) (file : File) (u : Uploader) (c : UploadedFile) :
  find (fun f => jsstring_eqb (uf_name f) (file_name file)) newFiles =
    Some c ->
  files (upload_one b newFiles k file u) =
  map (fun f =>
         if jsstring_eqb (uf_id f) (uf_id c) then
           let '(s, progress, message) := outcome b k file in
           {| uf_id := uf_id f; uf_name := uf_name f; uf_size := uf_size f;
              uf_type := uf_type f; uf_status := s;
              uf_progress :=
                match upload b (now b k ++ lit "-" ++ file_name file) file
                with
                | ResolvesOk => progress
                | _ => uf_progress f
                end;
              uf_error :=
                match message with
                | Some m => Some m
                | None => uf_error f
                end |}
         else f)
      (files u).
Proof.
  intros Hf. unfold upload_one, outcome. rewrite Hf. cbv zeta.
  destruct (upload b _ file); simpl.
  - apply map_ext. intros f. reflexivity.
  - apply map_ext. intros f. reflexivity.
  - destruct (invoke_process_file b _); simpl; rewrite map_map;
      apply map_ext; intros f;
      destruct (jsstring_eqb (uf_id f) (uf_id c)) eqn:E; simpl;
      rewrite ?E; reflexivity.
Qed.

Lemma settle_valid_entry (b : Browser) (i k : nat) (file : File) :
  is_valid file = true ->
  (let f := entry_of b i file in
   let '(s, progress, message) := outcome b k file in
   {| uf_id := uf_id f; uf_name := uf_name f; uf_size := uf_size f;
      uf_type := uf_type f; uf_status := s;
      uf_progress :=
        match upload b (now b k ++ lit "-" ++ file_name file) file with
        | ResolvesOk => progress
        | _ => uf_progress f
        end;
      uf_error :=
        match message with
        | Some m => Some m
        | None => uf_error f
        end |}) = settled_entry b i k file.
Proof.
  unfold is_valid, settled_entry, entry_of, outcome. intros Hv.
  destruct (validateFile file); [discriminate|]. cbv zeta.
  destruct (upload b _ file); [reflexivity | reflexivity |].
  destruct (invoke_process_file b _); reflexivity.
Qed.

Lemma filter_snoc (f : File -> bool) (xs : list File) (x : File) :
  filter f (xs ++ [x]) = filter f xs ++ (if f x then [x] else []).
Proof. rewrite filter_app. reflexivity. Qed.

Lemma upload_all_settles (b : Browser) (suf : list File) :
  forall pre F0 u,
    NoDup (map file_name (pre ++ suf)) ->
    NoDup (map uf_id F0 ++
           map (new_id b) (seq 0 (length (pre ++ suf)))) ->
    files u =
      F0 ++ settled_entries b 0 0 pre ++ new_entries b (length pre) suf ->
    files (upload_all b (new_entries b 0 (pre ++ suf))
             (length (filter is_valid pre)) (filter is_valid suf) u) =
    F0 ++ settled_entries b 0 0 pre ++
    settled_entries b (length pre) (length (filter is_valid pre)) suf.
Proof.
  induction suf as [|file rest IH]; intros pre F0 u Hnames Hids Hu.
  - simpl in *. exact Hu.
  - assert (Hsplit : pre ++ file :: rest = (pre ++ [file]) ++ rest)
      by (rewrite <- app_assoc; reflexivity).
    assert (Hlen : length (pre ++ [file]) = S (length pre))
      by (rewrite length_app; simpl; lia).
    cbn [filter settled_entries].
    destruct (is_valid file) eqn:Ev.
    + (* a valid file: one turn of the loop *)
      cbn [upload_all].
      set (e := entry_of b (length pre) file).
      assert (Hfind :
        find (fun f => jsstring_eqb (uf_name f) (file_name file))
          (new_entries b 0 (pre ++ file :: rest)) = Some e).
      { rewrite new_entries_app. cbn [new_entries]. apply find_by_name.
        - rewrite new_entries_names.
          rewrite map_app in Hnames. cbn [map] in Hnames.
          apply NoDup_remove_2 in Hnames. intros Hin. apply Hnames.
          apply in_or_app. left. exact Hin.
        - reflexivity. }
      assert (Hfresh :
        ~ In (uf_id e)
            (map uf_id F0 ++ map uf_id (settled_entries b 0 0 pre) ++
             map uf_id (new_entries b (S (length pre)) rest))).
      { rewrite settled_entries_ids, new_entries_ids.
        rewrite length_app in Hids. cbn [length] in Hids.
        rewrite seq_app in Hids. cbn [seq plus] in Hids.
        rewrite map_app in Hids. cbn [map] in Hids.
        rewrite app_assoc in Hids. apply NoDup_remove_2 in Hids.
        rewrite <- app_assoc in Hids. exact Hids. }
      pose proof (upload_one_files b _ (length (filter is_valid pre)) file u e
                    Hfind) as Hstep.
      rewrite Hu in Hstep. cbn [new_entries] in Hstep. fold e in Hstep.
      rewrite !map_app in Hstep. cbn [map] in Hstep.
      rewrite jsstring_eqb_refl in Hstep.
      rewrite (settle_valid_entry b (length pre) _ file Ev) in Hstep.
      rewrite !map_untouched in Hstep;
        [| intros H; apply Hfresh; apply in_or_app; right;
           apply in_or_app; right; exact H
         | intros H; apply Hfresh; apply in_or_app; right;
           apply in_or_app; left; exact H
         | intros H; apply Hfresh; apply in_or_app; left; exact H].
      rewrite Hsplit in Hnames, Hids.
      specialize (IH (pre ++ [file]) F0
                    (upload_one b (new_entries b 0 ((pre ++ [file]) ++ rest))
                       (length (filter is_valid pre)) file u)
                    Hnames Hids).
      rewrite Hlen, filter_snoc, Ev, length_app in IH.
      cbn [length] in IH. rewrite Nat.add_1_r in IH.
      rewrite settled_entries_app in IH. cbn [settled_entries] in IH.
      rewrite Ev in IH. cbn [plus] in IH.
      rewrite <- !app_assoc in IH. cbn [app] in IH.
      rewrite ?Nat.add_0_r in IH. cbn [plus] in IH.
      apply IH. exact Hstep.
    + (* a refused file: the loop does not see it *)
      rewrite Hsplit in Hnames, Hids.
      specialize (IH (pre ++ [file]) F0 u Hnames Hids).
      rewrite Hlen, filter_snoc, Ev, app_nil_r in IH.
      rewrite settled_entries_app in IH. cbn [settled_entries] in IH.
      rewrite Ev in IH. cbn [plus] in IH.
      rewrite <- !app_assoc in IH. cbn [app] in IH.
      rewrite ?Nat.add_0_r in IH. cbn [plus] in IH.
      apply IH. rewrite Hu. reflexivity.
Qed.

Lemma upload_one_toasts (b : Browser) (newFiles : list UploadedFile)
    (k : nat) (file : File) (u : Uploader) :
  toasts (upload_one b newFiles k file u) = toasts u.
Proof.
  unfold upload_one. destruct (find _ newFiles); [|reflexivity]. cbv zeta.
  destruct (upload b _ file); try reflexivity.
  destruct (invoke_process_file b _); reflexivity.
Qed.

Lemma upload_all_toasts (b : Browser) (newFiles : list UploadedFile)
    (vs : list File) :
  forall k u, toasts (upload_all b newFiles k vs u) = toasts u.
Proof.
  induction vs as [|v vs IH]; intros k u; simpl; [reflexivity|].
  rewrite IH. apply upload_one_toasts.
Qed.

Lemma processFiles_settles_every_file_aux (b : Browser)
    (fileList : list File) (u : Uploader) :
  NoDup (map file_name fileList) ->
  NoDup (map uf_id (files u) ++
         map (new_id b) (seq 0 (length fileList))) ->
  files (processFiles b fileList u) =
  files u ++ settled_entries b 0 0 fileList.
Proof.
  intros Hnames Hids.
  pose proof (upload_all_settles b fileList [] (files u)
                {| files := files u ++ new_entries b 0 fileList;
                   toasts := toasts u; calls := calls u |}
                Hnames Hids eq_refl) as H.
  simpl in H. unfold processFiles.
  destruct (length (filter is_valid fileList) =? 0) eqn:E.
  - apply Nat.eqb_eq in E.
    destruct (filter is_valid fileList); [|discriminate].
    simpl in H |- *. exact H.
  - destruct (onFilesUploaded b) as [[|]|]; simpl; exact H.
Qed.

(** X23: When the chosen files have distinct names and the identifiers drawn for
    them are distinct and new, [processFiles] leaves the earlier entries as
    they were and adds one entry per chosen file, in order.  The entry of a
    refused file carries the status [error] and the message of the
    validation; the entry of the [k]-th accepted file carries what the two
    calls made for it gave: [completed] with progress 100 when the upload
    and the call to [process-file] both succeed, [error] with the message
    of the step that failed otherwise. *)
Theorem processFiles_settles_every_file (b : Browser)
    (fileList : list File) (u : Uploader) :
  NoDup (map file_name fileList) ->
  NoDup (map uf_id (files u) ++
         map (new_id b) (seq 0 (length fileList))) ->
  files (processFiles b fileList u) =
  files u ++ settled_entries b 0 0 fileList.
Proof. apply processFiles_settles_every_file_aux. Qed.

Lemma processFiles_settles_every_file_witness :
  let b := {| new_id := fun i => lit "id" ++ [N.of_nat i + 48]%N;
              now := fun _ => lit "1700000000000";
              upload := fun _ f =>
                if jsstring_eqb (file_name f) (lit "b.csv") then ResolvesError
                else ResolvesOk;
              invoke_process_file := fun _ => ResolvesOk;
              onFilesUploaded := Some true |} in
  let a := {| file_name := lit "a.csv"; file_size := 10;
              file_type := lit "text/csv" |} in
  let t := {| file_name := lit "notes.txt"; file_size := 10;
              file_type := lit "text/plain" |} in
  let c := {| file_name := lit "b.csv"; file_size := 10;
              file_type := lit "text/csv" |} in
  map (fun e => (uf_name e, uf_status e, uf_progress e, uf_error e))
    (files (processFiles b [a; t; c]
              {| files := []; toasts := []; calls := [] |})) =
  [(lit "a.csv", completed, 100, None);
   (lit "notes.txt", error, 0,
    Some (lit "Only PDF and CSV files are allowed"));
   (lit "b.csv", error, 0, Some (lit "Upload failed"))].
Proof.
  intros b a t c.
  assert (Hn : NoDup (map file_name [a; t; c])).
  { repeat constructor; simpl; intros H;
      repeat (destruct H as [H|H]; [discriminate|]); exact H. }
  assert (Hi : NoDup (map uf_id (files {| files := []; toasts := [];
                                          calls := [] |}) ++
                      map (new_id b) (seq 0 (length [a; t; c])))).
  { repeat constructor; simpl; intros H;
      repeat (destruct H as [H|H]; [discriminate|]); exact H. }
  rewrite (processFiles_settles_every_file b [a; t; c] _ Hn Hi).
  reflexivity.
Defined.

(** X24: Under the same conditions no new entry is left at [uploading] or
    [processing] when [processFiles] is over: each one is either
    [completed], with progress 100 and no error message, or [error], with
    an error message. *)
Theorem no_file_left_in_progress (b : Browser) (fileList : list File)
    (u : Uploader) (e : UploadedFile) :
  NoDup (map file_name fileList) ->
  NoDup (map uf_id (files u) ++
         map (new_id b) (seq 0 (length fileList))) ->
  In e (files (processFiles b fileList u)) ->
  In e (files u) \/
  (uf_status e = completed /\ uf_progress e = 100 /\ uf_error e = None) \/
  (uf_status e = error /\ uf_error e <> None).
Proof.
  intros Hnames Hids Hin.
  rewrite (processFiles_settles_every_file_aux b fileList u Hnames Hids) in Hin.
  apply in_app_or in Hin. destruct Hin as [Hin|Hin]; [left; exact Hin|].
  right. clear Hnames Hids.
  enough (Hgen : forall i k,
             In e (settled_entries b i k fileList) ->
             (uf_status e = completed /\ uf_progress e = 100 /\
              uf_error e = None) \/
             (uf_status e = error /\ uf_error e <> None))
    by exact (Hgen 0 0 Hin).
  clear Hin.
  induction fileList as [|file rest IH]; intros i k Hin;
    [contradiction|].
  cbn [settled_entries] in Hin. unfold is_valid in Hin.
  destruct (validateFile file) as [msg|] eqn:Ev.
  - destruct Hin as [<-|Hin]; [|exact (IH _ _ Hin)].
    right. unfold entry_of. rewrite Ev. simpl. split; [reflexivity|discriminate].
  - destruct Hin as [<-|Hin]; [|exact (IH _ _ Hin)].
    unfold settled_entry, outcome. cbv zeta.
    destruct (upload b _ file);
      [right; simpl; split; [reflexivity|discriminate]
      |right; simpl; split; [reflexivity|discriminate]|].
    destruct (invoke_process_file b _);
      [right; simpl; split; [reflexivity|discriminate]
      |right; simpl; split; [reflexivity|discriminate]
      |left; simpl; repeat split; reflexivity].
Qed.

Lemma no_file_left_in_progress_witness :
  let b := {| new_id := fun i => lit "id" ++ [N.of_nat i + 48]%N;
              now := fun _ => lit "1700000000000";
              upload := fun _ _ => ResolvesOk;
              invoke_process_file := fun _ => ResolvesError;
              onFilesUploaded := None |} in
  let a := {| file_name := lit "a.csv"; file_size := 10;
              file_type := lit "text/csv" |} in
  let e := {| uf_id := lit "id0"; uf_name := lit "a.csv"; uf_size := 10;
              uf_type := lit "text/csv"; uf_status := error;
              uf_progress := 50;
              uf_error := Some (lit "Processing failed") |} in
  let u := {| files := []; toasts := []; calls := [] |} in
  In e (files (processFiles b [a] u)) /\
  (In e (files u) \/
   (uf_status e = completed /\ uf_progress e = 100 /\ uf_error e = None) \/
   (uf_status e = error /\ uf_error e <> None)).
Proof.
  intros b a e u.
  assert (Hin : In e (files (processFiles b [a] u)))
    by (left; reflexivity).
  split; [exact Hin|].
  refine (no_file_left_in_progress b [a] u e _ _ Hin).
  - repeat constructor. simpl. tauto.
  - repeat constructor. simpl. tauto.
Defined.

Lemma upload_one_calls (b : Browser) (newFiles : list UploadedFile)
    (k : nat) (file : File) (u : Uploader) :
  exists sent,
    calls (upload_one b newFiles k file u) = calls u ++ sent /\
    forall c, In c sent ->
      match c with
      | CallUpload path f => f = file
      | CallProcessFile request =>
          upload b (fileUrl request) file = ResolvesOk /\
          fileName request = file_name file /\
          fileType request = file_type file
      | CallOnFilesUploaded _ => False
      end.
Proof.
  unfold upload_one. destruct (find _ newFiles).
  2:{ exists []. rewrite app_nil_r. split; [reflexivity | contradiction]. }
  cbv zeta.
  destruct (upload b _ file) eqn:Eu.
  - eexists [_]. split; [reflexivity|].
    intros c [<-|[]]. reflexivity.
  - eexists [_]. split; [reflexivity|].
    intros c [<-|[]]. reflexivity.
  - destruct (invoke_process_file b _);
      (eexists [_; _]; split; [simpl; rewrite <- app_assoc; reflexivity|];
       intros c [<-|[<-|[]]]; [reflexivity|];
       simpl; repeat split; try reflexivity; exact Eu).
Qed.

Lemma upload_all_calls (b : Browser) (newFiles : list UploadedFile)
    (vs : list File) :
  forall k u,
  exists sent,
    calls (upload_all b newFiles k vs u) = calls u ++ sent /\
    forall c, In c sent ->
      match c with
      | CallUpload path f => In f vs
      | CallProcessFile request =>
          exists f, In f vs /\
            upload b (fileUrl request) f = ResolvesOk /\
            fileName request = file_name f /\
            fileType request = file_type f
      | CallOnFilesUploaded _ => False
      end.
Proof.
  induction vs as [|v vs IH]; intros k u; simpl.
  - exists []. rewrite app_nil_r. split; [reflexivity | contradiction].
  - destruct (upload_one_calls b newFiles k v u) as [s1 [H1 P1]].
    destruct (IH (S k) (upload_one b newFiles k v u)) as [s2 [H2 P2]].
    exists (s1 ++ s2). split; [rewrite H2, H1, app_assoc; reflexivity|].
    intros c Hc. apply in_app_or in Hc. destruct Hc as [Hc|Hc].
    + specialize (P1 c Hc). destruct c as [path f|request|l].
      * left. symmetry. exact P1.
      * exists v. split; [left; reflexivity | exact P1].
      * exact P1.
    + specialize (P2 c Hc). destruct c as [path f|request|l].
      * right. exact P2.
      * destruct P2 as [f [Hf Hrest]]. exists f.
        split; [right; exact Hf | exact Hrest].
      * exact P2.
Qed.

(** X25: Only accepted files leave the browser: every upload [processFiles]
    makes is for a chosen file that passed the validation, every call to
    [process-file] is for such a file whose upload has succeeded, under the
    path it was uploaded to and with its own name and type, and the callback
    is given the accepted files only. *)
Theorem only_accepted_files_are_sent (b : Browser) (fileList : list File)
    (u : Uploader) :
  exists sent,
    calls (processFiles b fileList u) = calls u ++ sent /\
    forall c, In c sent ->
      match c with
      | CallUpload path f => In f fileList /\ validateFile f = None
      | CallProcessFile request =>
          exists f, In f fileList /\ validateFile f = None /\
            upload b (fileUrl request) f = ResolvesOk /\
            fileName request = file_name f /\
            fileType request = file_type f
      | CallOnFilesUploaded validFiles =>
          validFiles = filter is_valid fileList
      end.
Proof.
  assert (Hvalid : forall f, In f (filter is_valid fileList) ->
                             In f fileList /\ validateFile f = None).
  { intros f Hf. apply filter_In in Hf. destruct Hf as [Hin Hv].
    split; [exact Hin|]. unfold is_valid in Hv.
    destruct (validateFile f); [discriminate | reflexivity]. }
  unfold processFiles.
  destruct (length (filter is_valid fileList) =? 0).
  { exists []. simpl. rewrite app_nil_r. split; [reflexivity | contradiction]. }
  set (u0 := {| files := files u ++ new_entries b 0 fileList;
                toasts := toasts u; calls := calls u |}).
  destruct (upload_all_calls b (new_entries b 0 fileList)
              (filter is_valid fileList) 0 u0) as [sent [Hs Ps]].
  assert (Hlift : forall c, In c sent ->
            match c with
            | CallUpload path f => In f fileList /\ validateFile f = None
            | CallProcessFile request =>
                exists f, In f fileList /\ validateFile f = None /\
                  upload b (fileUrl request) f = ResolvesOk /\
                  fileName request = file_name f /\
                  fileType request = file_type f
            | CallOnFilesUploaded validFiles =>
                validFiles = filter is_valid fileList
            end).
  { intros c Hc. specialize (Ps c Hc). destruct c as [path f|request|l].
    - apply Hvalid. exact Ps.
    - destruct Ps as [f [Hf Hrest]]. exists f.
      destruct (Hvalid f Hf) as [Hin Hv]. repeat split; tauto.
    - contradiction. }
  destruct (onFilesUploaded b) as [[|]|].
  - exists (sent ++ [CallOnFilesUploaded (filter is_valid fileList)]).
    simpl. rewrite Hs, <- app_assoc. split; [reflexivity|].
    intros c Hc. apply in_app_or in Hc.
    destruct Hc as [Hc|[<-|[]]]; [apply Hlift; exact Hc | reflexivity].
  - exists (sent ++ [CallOnFilesUploaded (filter is_valid fileList)]).
    simpl. rewrite Hs, <- app_assoc. split; [reflexivity|].
    intros c Hc. apply in_app_or in Hc.
    destruct Hc as [Hc|[<-|[]]]; [apply Hlift; exact Hc | reflexivity].
  - exists sent. split; [exact Hs | exact Hlift].
Qed.

(** X26: When none of the chosen files passes the validation (the empty choice
    included), [processFiles] adds their entries, each with the status
    [error] and the message of the validation, shows the toast "Upload
    Error" and stops: nothing is uploaded and the callback is not called. *)
Theorem no_accepted_file (b : Browser) (fileList : list File)
    (u : Uploader) :
  (forall f, In f fileList -> validateFile f <> None) ->
  processFiles b fileList u =
    {| files := files u ++ new_entries b 0 fileList;
       toasts := toasts u ++ [ToastUploadError];
       calls := calls u |} /\
  forall e, In e (new_entries b 0 fileList) ->
    uf_status e = error /\ uf_error e <> None.
Proof.
  intros Hall.
  assert (Hnone : filter is_valid fileList = []).
  { clear u. induction fileList as [|f rest IH]; [reflexivity|].
    simpl. unfold is_valid at 1.
    destruct (validateFile f) eqn:Ev.
    - apply IH. intros g Hg. apply Hall. right. exact Hg.
    - exfalso. apply (Hall f); [left; reflexivity | exact Ev]. }
  split.
  - unfold processFiles. rewrite Hnone. reflexivity.
  - clear u Hnone. generalize 0.
    induction fileList as [|f rest IH]; intros i e He; [contradiction|].
    destruct He as [<-|He].
    + unfold entry_of. specialize (Hall f (or_introl eq_refl)).
      destruct (validateFile f); [|congruence].
      simpl. split; [reflexivity | discriminate].
    + apply (IH (fun g Hg => Hall g (or_intror Hg)) (S i) e He).
Qed.

Lemma no_accepted_file_witness :
  let b := {| new_id := fun i => lit "id" ++ [N.of_nat i + 48]%N;
              now := fun _ => lit "1700000000000";
              upload := fun _ _ => ResolvesOk;
              invoke_process_file := fun _ => ResolvesOk;
              onFilesUploaded := Some true |} in
  let t := {| file_name := lit "notes.txt"; file_size := 10;
              file_type := lit "text/plain" |} in
  let u := {| files := []; toasts := []; calls := [] |} in
  processFiles b [t] u =
    {| files := files u ++ new_entries b 0 [t];
       toasts := toasts u ++ [ToastUploadError];
       calls := calls u |}.
Proof.
  intros b t u.
  refine (proj1 (no_accepted_file b [t] u _)).
  intros f [<-|[]]. discriminate.
Defined.

(** X27: When at least one chosen file passes the validation and the
    [onFilesUploaded] callback resolves, the only toast [processFiles] shows
    is "Files Processed", and the number it reports is the number of
    accepted files, whatever became of their uploads and of their
    processing. *)
Theorem success_toast_counts_accepted_files (b : Browser)
    (fileList : list File) (u : Uploader) :
  filter is_valid fileList <> [] ->
  onFilesUploaded b = Some true ->
  toasts (processFiles b fileList u) =
    toasts u ++ [ToastFilesProcessed (length (filter is_valid fileList))].
Proof.
  intros Hne Hcb. unfold processFiles. rewrite Hcb.
  destruct (filter is_valid fileList) as [|v vs] eqn:E; [congruence|].
  cbn [length Nat.eqb]. simpl toasts.
  rewrite upload_all_toasts, upload_one_toasts. reflexivity.
Qed.

Lemma success_toast_counts_accepted_files_witness :
  let b := {| new_id := fun i => lit "id" ++ [N.of_nat i + 48]%N;
              now := fun _ => lit "1700000000000";
              upload := fun _ _ => ResolvesError;
              invoke_process_file := fun _ => ResolvesOk;
              onFilesUploaded := Some true |} in
  let a := {| file_name := lit "a.csv"; file_size := 10;
              file_type := lit "text/csv" |} in
  let u := {| files := []; toasts := []; calls := [] |} in
  map uf_status (files (processFiles b [a] u)) = [error] /\
  toasts (processFiles b [a] u) = toasts u ++ [ToastFilesProcessed 1].
Proof.
  intros b a u. split; [reflexivity|].
  refine (success_toast_counts_accepted_files b [a] u _ eq_refl).
  discriminate.
Defined.

(** X28: The entry to update is looked up by file name.  When two accepted
    files chosen together bear the same name, both turns of the loop find
    the entry of the first one: the entry of the second file is never
    updated and stays at [uploading] with progress 0, although the file is
    uploaded like the first. *)
Theorem same_name_entry_stays_uploading (b : Browser) (f1 f2 : File)
    (u : Uploader) :
  file_name f1 = file_name f2 ->
  validateFile f1 = None ->
  validateFile f2 = None ->
  new_id b 0 <> new_id b 1 ->
  ~ In (new_id b 0) (map uf_id (files u)) ->
  exists first,
    files (processFiles b [f1; f2] u) =
      files u ++
      [first;
       {| uf_id := new_id b 1; uf_name := file_name f2;
          uf_size := file_size f2; uf_type := file_type f2;
          uf_status := uploading; uf_progress := 0; uf_error := None |}] /\
    uf_id first = new_id b 0 /\
    In (CallUpload (now b 1 ++ lit "-" ++ file_name f2) f2)
       (calls (processFiles b [f1; f2] u)).
Proof.
  intros Hname Hv1 Hv2 Hids Hfresh.
  set (e0 := entry_of b 0 f1). set (e1 := entry_of b 1 f2).
  set (u0 := {| files := files u ++ [e0; e1];
                toasts := toasts u; calls := calls u |}).
  assert (Hf1 : find (fun f => jsstring_eqb (uf_name f) (file_name f1))
                  [e0; e1] = Some e0)
    by (simpl; rewrite jsstring_eqb_refl; reflexivity).
  assert (Hf2 : find (fun f => jsstring_eqb (uf_name f) (file_name f2))
                  [e0; e1] = Some e0)
    by (simpl; rewrite Hname, jsstring_eqb_refl; reflexivity).
  set (u1 := upload_one b [e0; e1] 0 f1 u0).
  set (u2 := upload_one b [e0; e1] 1 f2 u1).
  assert (Hrun : files (processFiles b [f1; f2] u) = files u2 /\
                 forall c, In c (calls u2) ->
                           In c (calls (processFiles b [f1; f2] u))).
  { unfold processFiles. simpl filter. unfold is_valid. rewrite Hv1, Hv2.
    cbn [length Nat.eqb new_entries upload_all].
    fold e0 e1 u0 u1 u2.
    destruct (onFilesUploaded b) as [[|]|]; simpl; split; try reflexivity;
      intros c Hc; try exact Hc; apply in_or_app; left; exact Hc. }
  destruct Hrun as [Hfiles Hcalls].
  assert (He1 : e1 =
            {| uf_id := new_id b 1; uf_name := file_name f2;
               uf_size := file_size f2; uf_type := file_type f2;
               uf_status := uploading; uf_progress := 0;
               uf_error := None |})
    by (unfold e1, entry_of; rewrite Hv2; reflexivity).
  pose proof (upload_one_files b [e0; e1] 0 f1 u0 e0 Hf1) as H1.
  pose proof (upload_one_files b [e0; e1] 1 f2 u1 e0 Hf2) as H2.
  fold u1 in H1. fold u2 in H2. rewrite H1 in H2. clear H1.
  unfold u0 in H2. cbn [files] in H2.
  rewrite !map_app in H2. cbn [map] in H2.
  rewrite (map_untouched (uf_id e0) _ (files u)) in H2 by exact Hfresh.
  rewrite (map_untouched (uf_id e0) _ (files u)) in H2 by exact Hfresh.
  change (uf_id e0) with (new_id b 0) in H2.
  change (uf_id e1) with (new_id b 1) in H2.
  destruct (outcome b 0 f1) as [[s p] m].
  destruct (outcome b 1 f2) as [[s' p'] m'].
  cbn [uf_id] in H2. rewrite !jsstring_eqb_refl in H2.
  cbn [uf_id] in H2. rewrite ?jsstring_eqb_refl in H2.
  change (uf_id e1) with (new_id b 1) in H2.
  rewrite ?(jsstring_eqb_neq (new_id b 1) (new_id b 0)) in H2 by congruence.
  change (uf_id e1) with (new_id b 1) in H2.
  rewrite ?(jsstring_eqb_neq (new_id b 1) (new_id b 0)) in H2 by congruence.
  rewrite Hfiles, H2, <- He1.
  eexists. split; [reflexivity|]. split; [reflexivity|].
  apply Hcalls. unfold u2, upload_one. rewrite Hf2. cbv zeta.
    destruct (upload b _ f2);
      [| | destruct (invoke_process_file b _)]; simpl;
      rewrite <- ?app_assoc; apply in_or_app; right; left; reflexivity.
Qed.

Lemma same_name_entry_stays_uploading_witness :
  let b := {| new_id := fun i => lit "id" ++ [N.of_nat i + 48]%N;
              now := fun k => lit "170000000000" ++ [N.of_nat k + 48]%N;
              upload := fun _ _ => ResolvesOk;
              invoke_process_file := fun _ => ResolvesOk;
              onFilesUploaded := None |} in
  let a := {| file_name := lit "a.csv"; file_size := 10;
              file_type := lit "text/csv" |} in
  let a' := {| file_name := lit "a.csv"; file_size := 20;
               file_type := lit "text/csv" |} in
  let u := {| files := []; toasts := []; calls := [] |} in
  map (fun e => (uf_id e, uf_size e, uf_status e))
    (files (processFiles b [a; a'] u)) =
  [(lit "id0", 10%N, completed); (lit "id1", 20%N, uploading)].
Proof.
  intros b a a' u.
  destruct (same_name_entry_stays_uploading b a a' u eq_refl eq_refl eq_refl)
    as [first [Hf _]].
  - discriminate.
  - simpl. tauto.
  - reflexivity.
Defined.
